(** * memilio: ProgressIndicator.py and cleanData.py

    A shallow embedding of the terminal progress indicator
    ([memilio/ProgressIndicator.py]) and of the data cleanup tool
    ([epidemiology/epidata/cleanData.py]), and the properties of both.

    Conventions of the embedding:
    - Python [str] is [string]; [len] is [String.length]; integers are [Z].
    - A Python [float] ([delay], the progress value) is given by its value,
      a rational [Q].  A product of an [int] and a [float] is rounded to
      the nearest [float] as binary64 arithmetic does ([Py.binary64]);
      infinities and NaN are outside the model.
    - [sys.stdout] is a trace of [Write]/[Flush] events.
    - Mutable Python lists shared between objects live in a [heap] and are
      referred to by location, so that aliasing is explicit.
    - A method of an object is a function from the object's fields to a
      computation in the monad [M] returning the updated fields.
    - Threads are entries of a table that records which ones are alive.  A
      call of a method by the owner and a turn of the loop of the
      background thread are each taken as one step; steps interleave in any
      order.
    - The file system of [cleanData.py] maps the path of a directory to the
      names of its entries, and records the entries that [os.remove]
      cannot unlink. *)

From Stdlib Require Import ZArith QArith Qround Qabs Lia Bool.
From Stdlib Require Import DecimalString.
From Stdlib Require Import Lqa Qpower.
From stdpp Require Import base list strings gmap.

Open Scope Z_scope.

(* ===================================================================== *)
(** ** Python built-ins used by the two source files                      *)
(* ===================================================================== *)

Module Py.

(** [len(s)] *)
Definition len (s : string) : Z := Z.of_nat (String.length s).

Fixpoint repeat_str (s : string) (n : nat) : string :=
  match n with
  | O => ""
  | S k => s +:+ repeat_str s k
  end.

(** [s * n]: the empty string when [n <= 0]. *)
Definition str_mul (s : string) (n : Z) : string := repeat_str s (Z.to_nat n).

(** [s.endswith(suffix)] *)
Definition endswith (s suffix : string) : bool :=
  let n := String.length s in
  let k := String.length suffix in
  (k <=? n)%nat && String.eqb (String.substring (n - k) k s) suffix.

(** [sub in s] for strings: [sub] occurs as a contiguous block of [s]. *)
Fixpoint contains (sub s : string) : bool :=
  String.prefix sub s ||
  match s with
  | EmptyString => false
  | String _ s' => contains sub s'
  end.

(** [s.startswith(p)] *)
Definition startswith (s p : string) : bool := String.prefix p s.

(** [os.path.join(a, b)] of posixpath. *)
Definition path_join (a b : string) : string :=
  if startswith b "/" then b
  else if String.eqb a "" || endswith a "/" then a +:+ b
  else a +:+ "/" +:+ b.

(** [int(x)]: truncation toward zero. *)
Definition int (x : Q) : Z := Z.quot (Qnum x) (Zpos (Qden x)).

(** [x > 0] on numbers. *)
Definition gt0 (x : Q) : bool := negb (Qle_bool x 0).

(** Nearest integer, ties to the even neighbour (the rounding of the
    ["f"] presentation type). *)
Definition round_half_even (x : Q) : Z :=
  let f := Qfloor x in
  match Qcompare (x - inject_Z f) (1 # 2) with
  | Lt => f
  | Gt => f + 1
  | Eq => if Z.even f then f else f + 1
  end.

(** [floor(log2(q))] for [q > 0]: the exponent of the leading bit. *)
Definition ilog2 (q : Q) : Z :=
  if Qle_bool 1 q then Z.log2 (Qfloor q)
  else - Z.log2_up (Qceiling (/ q)).

(** The multiple of [2^e] nearest to [q], ties to the even multiple. *)
Definition round_at (e : Z) (q : Q) : Q :=
  (inject_Z (round_half_even (q / 2 ^ e)) * 2 ^ e)%Q.

(** The value of the [float] nearest to [q], ties to even: a binary64
    number has 53 significant bits, and below [2^-1022] it is a multiple
    of [2^-1074]. *)
Definition binary64 (q : Q) : Q :=
  if Qeq_bool q 0 then 0%Q
  else round_at (Z.max (ilog2 (Qabs q) - 52) (-1074)) q.

(** [n * x] for an [int] and a [float]: the [int] is converted to a
    [float] and the product is rounded to a [float]. *)
Definition mul_int_float (n : Z) (x : Q) : Q :=
  binary64 (binary64 (inject_Z n) * x).

Definition digits (n : Z) : string :=
  NilZero.string_of_uint (N.to_uint (Z.to_N n)).

Definition two_digits (n : Z) : string :=
  if n <? 10 then "0" +:+ digits n else digits n.

(** ["{:.2f}".format(x)] *)
Definition fixed2 (x : Q) : string :=
  let c := round_half_even (Qabs x * 100) in
  (if Qle_bool 0 x then "" else "-")
    +:+ digits (c / 100) +:+ "." +:+ two_digits (c mod 100).

(** Right alignment in a field of [width] characters (the default
    alignment of numbers). *)
Definition pad_left (width : nat) (s : string) : string :=
  repeat_str " " (width - String.length s) +:+ s.

(** ["{:6.2f}".format(x)] *)
Definition format_6_2f (x : Q) : string := pad_left 6 (fixed2 x).

End Py.

(* ===================================================================== *)
(** ** The world a program runs in, and computations over it              *)
(* ===================================================================== *)

(** What reaches [sys.stdout]. *)
Inductive event :=
| Write (s : string)
| Flush.

(** Location of a Python list object in the heap. *)
Definition loc := nat.

Record world := World {
  stdout : list event;       (* everything written so far, oldest first *)
  heap : list (list Q);      (* the list objects holding numbers *)
  threads : list bool;       (* [is_alive()] of every Thread started so far *)
  terminal : option Z        (* columns of the attached terminal, if any *)
}.

Inductive exn :=
| AssertionError
| OSError
| FileNotFoundError
| IsADirectoryError
| PermissionError
| IndexError
| StopIteration.

(** [except OSError] also catches its subclasses. *)
Definition is_OSError (e : exn) : bool :=
  match e with
  | OSError | FileNotFoundError | IsADirectoryError | PermissionError => true
  | _ => false
  end.

(** Outcome of a call: a value, an exception, or no return at all. *)
Inductive result (A : Type) :=
| Ok (a : A)
| Raise (e : exn)
| Hang.
Arguments Ok {A} a.
Arguments Raise {A} e.
Arguments Hang {A}.

(** Computations over a state [S] that may raise. *)
Definition ST (S A : Type) : Type := S -> result A * S.

Definition ret {S A} (a : A) : ST S A := fun w => (Ok a, w).

Definition bind {S A B} (c : ST S A) (k : A -> ST S B) : ST S B :=
  fun w =>
    match c w with
    | (Ok a, w') => k a w'
    | (Raise e, w') => (Raise e, w')
    | (Hang, w') => (Hang, w')
    end.

Definition raise {S A} (e : exn) : ST S A := fun w => (Raise e, w).

Notation "'do' x <- c ; k" := (bind c (fun x => k))
  (at level 10, x name, c at level 100, k at level 200).
Notation "'do_' c ; k" := (bind c (fun _ => k))
  (at level 10, c at level 100, k at level 200).

(** [try: c  except <handled>: h e]; other exceptions pass through. *)
Definition try_except {S A} (c : ST S A) (handled : exn -> bool)
           (h : exn -> ST S A) : ST S A :=
  fun w =>
    match c w with
    | (Raise e, w') => if handled e then h e w' else (Raise e, w')
    | r => r
    end.

(** [for x in l: body x] *)
Fixpoint for_each {S A} (l : list A) (body : A -> ST S unit) : ST S unit :=
  match l with
  | [] => ret tt
  | x :: l' => do_ body x; for_each l' body
  end.

(** [assert(b)] *)
Definition assert {S} (b : bool) : ST S unit :=
  if b then ret tt else raise AssertionError.

(** Computations of the progress indicator. *)
Abbreviation M := (ST world).

(** ANSI erase-line, ["\033[K"], and the two control characters. *)
Definition ESC_K : string := String (Ascii.ascii_of_nat 27) "[K".
Definition CR : string := String (Ascii.ascii_of_nat 13) "".
Definition NL : string := String (Ascii.ascii_of_nat 10) "".

(** [sys.stdout.write(s)] *)
Definition sys_stdout_write (s : string) : M unit :=
  fun w => (Ok tt, World (stdout w ++ [Write s]) (heap w) (threads w) (terminal w)).

(** [sys.stdout.flush()] *)
Definition sys_stdout_flush : M unit :=
  fun w => (Ok tt, World (stdout w ++ [Flush]) (heap w) (threads w) (terminal w)).

(** [print(s)]: the text, then the line end. *)
Definition print (s : string) : M unit :=
  do_ sys_stdout_write s; sys_stdout_write NL.

(** [os.get_terminal_size().columns]: raises [OSError] when standard output
    is not connected to a terminal. *)
Definition get_terminal_size_columns : M Z :=
  fun w =>
    match terminal w with
    | Some c => (Ok c, w)
    | None => (Raise OSError, w)
    end.

(** [[x]]: a new single-element list object. *)
Definition alloc (x : Q) : M loc :=
  fun w => (Ok (length (heap w)),
            World (stdout w) (heap w ++ [[x]]) (threads w) (terminal w)).

(** [p[i]] *)
Definition load (p : loc) (i : nat) : M Q :=
  fun w =>
    match heap w !! p with
    | Some l => match l !! i with
                | Some x => (Ok x, w)
                | None => (Raise IndexError, w)
                end
    | None => (Raise IndexError, w)
    end.

(** [p[i] = x] *)
Definition store (p : loc) (i : nat) (x : Q) : M unit :=
  fun w =>
    match heap w !! p with
    | Some l =>
        if decide (i < length l)%nat
        then (Ok tt, World (stdout w) (<[p := <[i := x]> l]> (heap w))
                           (threads w) (terminal w))
        else (Raise IndexError, w)
    | None => (Raise IndexError, w)
    end.

(** [threading.Thread(target=...)] followed by [.start()]: the handle of the
    new thread. *)
Definition thread_start : M nat :=
  fun w => (Ok (length (threads w)),
            World (stdout w) (heap w) (threads w ++ [true]) (terminal w)).

(** [thread.is_alive()] *)
Definition thread_is_alive (t : nat) : M bool :=
  fun w => (Ok (default false (threads w !! t)), w).

(** The thread [t] has left its target function. *)
Definition thread_exit (t : nat) : M unit :=
  fun w => (Ok tt, World (stdout w) (heap w) (<[t := false]> (threads w)) (terminal w)).

(** Number of background threads that are alive. *)
Definition live (l : list bool) : nat := length (filter (fun b => b = true) l).
Definition alive (w : world) : nat := live (threads w).

(** The world after more output. *)
Definition printed (w : world) (evs : list event) : world :=
  World (stdout w ++ evs) (heap w) (threads w) (terminal w).

(* ===================================================================== *)
(** ** Generators                                                         *)
(* ===================================================================== *)

(** A generator object: its suspended state and what [next] does from a
    state.  The body may read the world (the shared progress value) but
    does not change it. *)
Record generator := Generator {
  gen_state : Type;
  gen_cur : gen_state;
  gen_body : gen_state -> world -> result (string * gen_state)
}.

(** The outcome of a computation that only reads the world. *)
Definition read {A} (c : M A) : world -> result A := fun w => (c w).1.

(** [next(g)]: the yielded value and the generator advanced past it. *)
Definition next (g : generator) : M (string * generator) :=
  fun w =>
    match gen_body g (gen_cur g) w with
    | Ok r => (Ok (r.1, Generator (gen_state g) r.2 (gen_body g)), w)
    | Raise e => (Raise e, w)
    | Hang => (Hang, w)
    end.

(** The first [k] values of a generator, in a fixed world. *)
Fixpoint take_frames (k : nat) (g : generator) (w : world) : list string :=
  match k with
  | O => []
  | S k' =>
      match next g w with
      | (Ok (s, g'), w') => s :: take_frames k' g' w'
      | _ => []
      end
  end.

(** The value of the [k]-th call of [next], counted from 0. *)
Definition frame_at (k : nat) (g : generator) (w : world) : option string :=
  take_frames (S k) g w !! k.

(* ===================================================================== *)
(** ** ProgressIndicator.py                                               *)
(* ===================================================================== *)

(** [class _bar] (nested in [Percentage]): the object whose [[]] returns the
    progress bar. *)
Module _bar.

Record t := Bar {
  p : loc;       (* the list object holding the progress value *)
  m : string;
  w : Z
}.

Definition __init__ (percentage : loc) (message : string) (width : Z) : t :=
  {| p := percentage;
     m := message;
     w := width - Py.len message - 11 |}.

Definition __getitem__ (self : t) : M string :=
  do x <- load (p self) 0;
  let n := Py.int (Py.mul_int_float (w self) x) in
  ret (m self +:+ "[" +:+ Py.str_mul "#" n
              +:+ Py.str_mul " " (w self - n) +:+ "] ").

End _bar.

(** What [Percentage._message] refers to: the list [[message]] or a [_bar]. *)
Inductive message_obj :=
| MsgList (l : list string)
| MsgBar (b : _bar.t).

(** [message[i]] *)
Definition getitem (message : message_obj) (i : nat) : M string :=
  match message with
  | MsgList l =>
      match l !! i with
      | Some s => ret s
      | None => raise IndexError
      end
  | MsgBar b => _bar.__getitem__ b
  end.

Module ProgressIndicator.

Record t := Indicator {
  _animator : generator;
  _delay : Q;
  _thread : option nat;
  _enabled : bool
}.

Definition __init__ (animator : generator) (delay : Q) : M t :=
  do_ assert (Py.gt0 delay);
  ret {| _animator := animator;
         _delay := delay;
         _thread := None;
         _enabled := false |}.

(** The object with its animator replaced. *)
Definition advanced (self : t) (g : generator) : t :=
  {| _animator := g;
     _delay := _delay self;
     _thread := _thread self;
     _enabled := _enabled self |}.

(** Print and advance the animation. *)
Definition show (self : t) : M t :=
  do r <- next (_animator self);
  do_ sys_stdout_write (" " +:+ r.1 +:+ CR);
  do_ sys_stdout_flush;
  ret (advanced self r.2).

(** Start the animation in a new thread. *)
Definition start (self : t) : M t :=
  if negb (_enabled self) then
    do th <- thread_start;
    ret {| _animator := _animator self;
           _delay := _delay self;
           _thread := Some th;
           _enabled := true |}
  else ret self.

(** [self._thread.join()], called after [_enabled] was cleared: the
    thread finds the flag cleared at its next loop test and returns. *)
Definition join (th : nat) : M unit := thread_exit th.

(** Stop the animation and join the thread. *)
Definition stop (self : t) : M t :=
  if _enabled self then
    do_ match _thread self with
        | Some th =>
            do a <- thread_is_alive th;
            if a then join th else ret tt
        | None => ret tt
        end;
    do_ sys_stdout_write ESC_K;
    ret {| _animator := _animator self;
           _delay := _delay self;
           _thread := _thread self;
           _enabled := false |}
  else ret self.

(** One turn of the loop of [_render], run by the background thread [th]:
    the loop test and, when it holds, [show()] (the [sleep] that follows
    has no effect on the state).  A turn is taken as a whole between two
    calls of the owner.  An exception leaving [show] ends the thread. *)
Definition _render (th : nat) (self : t) : M t :=
  do a <- thread_is_alive th;
  if a then
    if _enabled self then
      try_except (show self) (fun _ => true)
                 (fun _ => do_ thread_exit th; ret self)
    else
      do_ thread_exit th; ret self
  else ret self.

Definition __enter__ (self : t) : M t := start self.
Definition __exit__ (self : t) : M t := stop self.

(** The generator [spin()] of [Spinner]: its state is what is left of the
    string ["|/-\\"] in the current pass of the [for] loop. *)
Definition spin_symbols : list string := ["|"; "/"; "-"; "\"].

Definition spin (message : string) : generator :=
  Generator (list string) spin_symbols
    (fun rest _ =>
       let pass := match rest with [] => spin_symbols | _ => rest end in
       match pass with
       | s :: rest' => Ok (message +:+ s, rest')
       | [] => Hang
       end).

Definition Spinner (delay : Q) (message : string) : M t :=
  do columns <- get_terminal_size_columns;
  do message <- (if columns <? Py.len message + 2
                 then do_ print message; ret ""
                 else ret message);
  __init__ (spin message) delay.

(** The generator [dots()] of [Dots]: its state is the value the [for]
    loop binds [n] to next; past [num_dots] the [while] loop starts a new
    pass at 1.  With [num_dots < 1] no pass ever yields. *)
Definition dots (message : string) (num_dots : Z) (dot blank : string)
  : generator :=
  Generator Z 1
    (fun n _ =>
       let n := if n <=? num_dots then n else 1 in
       if n <=? num_dots
       then Ok (message +:+ Py.str_mul dot n
                        +:+ Py.str_mul blank (num_dots - n), n + 1)
       else Hang).

Definition Dots (delay : Q) (message : string) (num_dots : Z)
           (dot blank : string) : M t :=
  do_ assert (Py.len dot =? Py.len blank);
  do_ assert (0 <? num_dots);
  do columns <- get_terminal_size_columns;
  do message <- (if columns <? num_dots + Py.len message + 1
                 then do_ print message; ret ""
                 else ret message);
  __init__ (dots message num_dots dot blank) delay.

Module Percentage.

Record t := Make {
  _use_thread : bool;
  _keep_output : bool;
  _progress : loc;
  _message : message_obj;
  _indicator : ProgressIndicator.t
}.

(** The generator [_perc(p, message)]. *)
Definition _perc (p : loc) (message : message_obj) : generator :=
  Generator unit tt
    (fun _ =>
       read (do m <- getitem message 0;
             do x <- load p 0;
             ret (m +:+ Py.format_6_2f (Py.mul_int_float 100 x) +:+ "%",
                  tt))).

Definition __init__ (delay : Q) (message : string) (percentage : Q)
           (use_bar use_delayed_output keep_output : bool) : M t :=
  do progress <- alloc percentage;
  do width <- get_terminal_size_columns;
  do msg <- (if use_bar then
               do message <- (if width <? Py.len message + 12
                              then do_ print message; ret ""
                              else ret message);
               ret (MsgBar (_bar.__init__ progress message width))
             else
               do message <- (if width <? Py.len message + 8
                              then do_ print message; ret ""
                              else ret message);
               ret (MsgList [message]));
  do indicator <- ProgressIndicator.__init__ (_perc progress msg) delay;
  ret {| _use_thread := use_delayed_output;
         _keep_output := keep_output;
         _progress := progress;
         _message := msg;
         _indicator := indicator |}.

Definition with_indicator (self : t) (i : ProgressIndicator.t) : t :=
  {| _use_thread := _use_thread self;
     _keep_output := _keep_output self;
     _progress := _progress self;
     _message := _message self;
     _indicator := i |}.

(** Start the animation. *)
Definition start (self : t) : M t :=
  if _use_thread self then
    do i <- ProgressIndicator.start (_indicator self);
    ret (with_indicator self i)
  else ret self.

(** Stops the animation. *)
Definition stop (self : t) : M t :=
  do i <- (if _use_thread self
           then ProgressIndicator.show (_indicator self)
           else ret (_indicator self));
  do_ (if _keep_output self then sys_stdout_write NL else ret tt);
  do i <- (if _use_thread self
           then ProgressIndicator.stop i
           else do_ sys_stdout_write ESC_K; ret i);
  ret (with_indicator self i).

(** Updates the percentage shown by the indicator. *)
Definition set_progress (self : t) (percentage : Q) : M t :=
  do_ store (_progress self) 0 percentage;
  do i <- (if negb (_enabled (_indicator self))
           then ProgressIndicator.show (_indicator self)
           else ret (_indicator self));
  ret (with_indicator self i).

Definition __enter__ (self : t) : M t := start self.
Definition __exit__ (self : t) : M t := stop self.

End Percentage.

End ProgressIndicator.

(* ===================================================================== *)
(** ** cleanData.py                                                       *)
(* ===================================================================== *)

Module cleanData.

(** Why [os.remove] cannot unlink an entry: it is a directory, or the
    process is not allowed to remove it. *)
Inductive refusal :=
| Directory
| Denied.

Definition refusal_exn (why : refusal) : exn :=
  match why with
  | Directory => IsADirectoryError
  | Denied => PermissionError
  end.

(** The part of the file system the tool works on.  A directory is known
    by the path string the program uses for it and holds the names of its
    entries.  [locked] holds the paths that [os.remove] cannot unlink.
    [removed] records every path [os.remove] unlinked, [removed_dirs]
    every directory [os.rmdir] removed, and [printed] every line of
    [print], oldest first. *)
Record disk := Disk {
  dirs : gmap string (list string);
  removed : list string;
  removed_dirs : list string;
  printed : list string;
  locked : gmap string refusal
}.

Abbreviation FS := (ST disk).

(** [print(a, b)]: the two arguments separated by one space. *)
Definition print2 (a b : string) : FS unit :=
  fun d => (Ok tt, Disk (dirs d) (removed d) (removed_dirs d)
                        (printed d ++ [a +:+ " " +:+ b]) (locked d)).

Definition print1 (a : string) : FS unit :=
  fun d => (Ok tt, Disk (dirs d) (removed d) (removed_dirs d)
                        (printed d ++ [a]) (locked d)).

(** [os.listdir(directory)] *)
Definition os_listdir (directory : string) : FS (list string) :=
  fun d =>
    match dirs d !! directory with
    | Some files => (Ok files, d)
    | None => (Raise FileNotFoundError, d)
    end.

(** [os.remove(os.path.join(directory, item))]: an entry that is there is
    unlinked unless it is locked; then the call raises and nothing
    changes. *)
Definition os_remove (directory item : string) : FS unit :=
  fun d =>
    match dirs d !! directory with
    | Some files =>
        if bool_decide (item ∈ files)
        then match locked d !! Py.path_join directory item with
             | Some why => (Raise (refusal_exn why), d)
             | None =>
                 (Ok tt,
                  Disk (<[directory := filter (fun f => f ≠ item) files]>
                          (dirs d))
                       (removed d ++ [Py.path_join directory item])
                       (removed_dirs d) (printed d) (locked d))
             end
        else (Raise FileNotFoundError, d)
    | None => (Raise FileNotFoundError, d)
    end.

(** [os.rmdir(directory)]: only an empty directory can be removed. *)
Definition os_rmdir (directory : string) : FS unit :=
  fun d =>
    match dirs d !! directory with
    | Some [] =>
        (Ok tt, Disk (delete directory (dirs d)) (removed d)
                     (removed_dirs d ++ [directory]) (printed d) (locked d))
    | Some (_ :: _) => (Raise OSError, d)
    | None => (Raise FileNotFoundError, d)
    end.

Definition is_FileNotFoundError (e : exn) : bool :=
  match e with FileNotFoundError => true | _ => false end.

(** [try: files = os.listdir(directory)  except FileNotFoundError: ...]:
    [None] when the handler ran. *)
Definition try_listdir (directory : string) : FS (option (list string)) :=
  try_except (do files <- os_listdir directory; ret (Some files))
             is_FileNotFoundError (fun _ => ret None).

(** [try: os.rmdir(directory)  except OSError: ...]: [false] when the
    handler ran. *)
Definition try_rmdir (directory : string) : FS bool :=
  try_except (do_ os_rmdir directory; ret true)
             is_OSError (fun _ => ret false).

Definition directories : list string :=
  ["Germany/"; "Spain/"; "France/"; "Italy/"; "US/"; "SouthKorea/"; "China/"].

Definition clean_data (all_data rki john_hopkins population hdf5 : bool)
           (out_path : string) : FS unit :=
  let ending := if hdf5 then "h5" else "json" in
  if all_data then
    (* delete files in directory *)
    do_ for_each directories (fun cdir =>
      let directory := Py.path_join out_path cdir in
      do listing <- try_listdir directory;
      match listing with
      | None => ret tt                                   (* continue *)
      | Some files =>
          do_ for_each files (fun item =>
            if Py.endswith item ".json" || Py.endswith item ".h5" then
              do_ print2 "Deleting file " (Py.path_join directory item);
              os_remove directory item
            else ret tt);
          (* delete directories if empty *)
          do gone <- try_rmdir directory;
          if gone then print2 "Deleting directory " directory
          else ret tt                                    (* continue *)
      end);
    (* delete further jh files *)
    do listing <- try_listdir out_path;
    let files := default [] listing in
    for_each files (fun item =>
      if Py.endswith item ".json" || Py.endswith item ".h5" then
        do_ print2 "Deleting file " (Py.path_join out_path item);
        os_remove out_path item
      else ret tt)
  else if rki || john_hopkins || population then
    do_ (if rki then
           let directory := Py.path_join out_path "Germany/" in
           do listing <- try_listdir directory;
           let files := default [] listing in
           do_ for_each files (fun item =>
             if Py.endswith item ending then
               if Py.contains "_rki" item || Py.contains "RKI" item then
                 do_ print2 "Deleting file " (Py.path_join directory item);
                 os_remove directory item
               else ret tt
             else ret tt);
           (* delete directory if empty *)
           try_except (do_ os_rmdir directory;
                       print2 "Deleting directory " directory)
                      is_OSError (fun _ => ret tt)
         else ret tt);
    do_ (if population then
           let directory := Py.path_join out_path "Germany/" in
           do listing <- try_listdir directory;
           let files := default [] listing in
           do_ for_each files (fun item =>
             if Py.endswith item ending then
               if Py.contains "Popul" item || Py.contains "FullDataB" item
                  || Py.contains "FullDataL" item then
                 do_ print2 "Deleting file " (Py.path_join directory item);
                 os_remove directory item
               else ret tt
             else ret tt);
           (* delete directory if empty *)
           try_except (do_ os_rmdir directory;
                       print2 "Deleting directory " directory)
                      is_OSError (fun _ => ret tt)
         else ret tt);
    if john_hopkins then
      (* delete files in directory *)
      do_ for_each directories (fun cdir =>
        let directory := Py.path_join out_path cdir in
        do listing <- try_listdir directory;
        match listing with
        | None => ret tt                                 (* continue *)
        | Some files =>
            do_ for_each files (fun item =>
              if Py.endswith item ending && Py.contains "_jh" item then
                do_ print2 "Deleting file " (Py.path_join directory item);
                os_remove directory item
              else ret tt);
            (* delete directories *)
            do gone <- try_rmdir directory;
            if gone then print2 "Deleting directory " directory
            else ret tt                                  (* continue *)
        end);
      (* delete further jh files *)
      do listing <- try_listdir out_path;
      let files := default [] listing in
      for_each files (fun item =>
        if Py.endswith item ending then
          if Py.contains "_jh" item || Py.contains "JohnHopkins" item then
            do_ print2 "Deleting file " (Py.path_join out_path item);
            os_remove out_path item
          else ret tt
        else ret tt)
    else ret tt
  else
    print1 "Please specify what should be deleted. See --help for details.".

End cleanData.

(* ===================================================================== *)
(** ** Objects in use: the states a caller can bring them to              *)
(* ===================================================================== *)

(** The fields of an object after a call: as the call returned them, or
    untouched when it did not return. *)
Definition after {A} (self : A) (r : result A) : A :=
  match r with
  | Ok self' => self'
  | _ => self
  end.

Module IndicatorUse.

Import ProgressIndicator.

(** What can happen to an indicator: a call by its owner, or a turn of the
    loop of the background thread [th]. *)
Inductive op :=
| call_start
| call_stop
| call_show
| turn (th : nat).

Definition exec (o : op) (self : t) : M t :=
  match o with
  | call_start => start self
  | call_stop => stop self
  | call_show => show self
  | turn th => _render th self
  end.

(** States reachable from a construction in a process that has no
    background thread yet. *)
Inductive reachable : t -> world -> Prop :=
| reach_new animator delay w self w' :
    alive w = 0%nat ->
    __init__ animator delay w = (Ok self, w') ->
    reachable self w'
| reach_op o self w :
    reachable self w ->
    reachable (after self (exec o self w).1) (exec o self w).2.

End IndicatorUse.

Module PercentageUse.

Import ProgressIndicator.

Inductive op :=
| call_start
| call_stop
| call_set_progress (percentage : Q)
| turn (th : nat).

Definition exec (o : op) (self : Percentage.t) : M Percentage.t :=
  match o with
  | call_start => Percentage.start self
  | call_stop => Percentage.stop self
  | call_set_progress v => Percentage.set_progress self v
  | turn th =>
      do i <- _render th (Percentage._indicator self);
      ret (Percentage.with_indicator self i)
  end.

Inductive reachable : Percentage.t -> world -> Prop :=
| reach_new delay message percentage use_bar use_delayed_output keep_output
            w self w' :
    alive w = 0%nat ->
    Percentage.__init__ delay message percentage use_bar
                        use_delayed_output keep_output w = (Ok self, w') ->
    reachable self w'
| reach_op o self w :
    reachable self w ->
    reachable (after self (exec o self w).1) (exec o self w).2.

End PercentageUse.

(* ===================================================================== *)
(** ** Vocabulary of the statements                                       *)
(* ===================================================================== *)

Section indicator_vocabulary.

Import ProgressIndicator.

(** While the flag is cleared no background thread is alive, and a thread
    that is alive is the one the object holds the handle of. *)
Definition owns_threads (self : t) (w : world) : Prop :=
  (_enabled self = false -> forall i, threads w !! i <> Some true) /\
  (forall i, threads w !! i = Some true -> _thread self = Some i).

(** The frame [dots()] yields while [n] is bound to [i]. *)
Definition dots_frame (message : string) (num_dots : Z) (dot blank : string)
           (i : Z) : string :=
  message +:+ Py.str_mul dot i +:+ Py.str_mul blank (num_dots - i).

(** The message a preset goes on with, and the world after the width guard
    printed the message that does not fit. *)
Definition guarded (too_narrow : bool) (message : string) : string :=
  if too_narrow then "" else message.

Definition guard_output (too_narrow : bool) (message : string) (w : world)
  : world :=
  if too_narrow then printed w [Write message; Write NL] else w.

(** The text [_bar.__getitem__] computes at progress [x]. *)
Definition bar_text (b : _bar.t) (x : Q) : string :=
  let n := Py.int (Py.mul_int_float (_bar.w b) x) in
  _bar.m b +:+ "[" +:+ Py.str_mul "#" n
           +:+ Py.str_mul " " (_bar.w b - n) +:+ "] ".

(** The value of [message[0]] at progress [x]. *)
Definition message_text (message : message_obj) (x : Q) : string :=
  match message with
  | MsgList l => default "" (l !! 0%nat)
  | MsgBar b => bar_text b x
  end.

(** The frame [_perc] yields at progress [x]. *)
Definition perc_frame (message : message_obj) (x : Q) : string :=
  message_text message x +:+ Py.format_6_2f (Py.mul_int_float 100 x) +:+ "%".

(** A [Percentage] as its constructor builds it and its methods keep it:
    the progress list exists and has one element, the bar and the
    generator refer to that same list, and the running flag tells whether
    the background thread is alive. *)
Definition well_formed (self : Percentage.t) (w : world) : Prop :=
  (exists x, heap w !! Percentage._progress self = Some [x]) /\
  _animator (Percentage._indicator self)
  = Percentage._perc (Percentage._progress self) (Percentage._message self) /\
  match Percentage._message self with
  | MsgList l => exists m, l = [m]
  | MsgBar b => _bar.p b = Percentage._progress self
  end /\
  owns_threads (Percentage._indicator self) w /\
  (Percentage._use_thread self = false ->
   _enabled (Percentage._indicator self) = false) /\
  (_enabled (Percentage._indicator self) = true ->
   exists th, _thread (Percentage._indicator self) = Some th /\
              threads w !! th = Some true).

(** The indicator with its running flag cleared. *)
Definition stopped (i : t) : t :=
  Indicator (_animator i) (_delay i) (_thread i) false.

(** The world after [p[0] = v]. *)
Definition stored (w : world) (p : loc) (v : Q) : world :=
  World (stdout w) (<[p := [v]]> (heap w)) (threads w) (terminal w).

End indicator_vocabulary.

Section removal_vocabulary.

Import cleanData.

(** A computation hands to [os.remove] only paths that satisfy [P]. *)
Definition removes_only (P : string -> Prop) {A} (c : FS A) : Prop :=
  forall d, exists new, removed (c d).2 = removed d ++ new /\ Forall P new.

End removal_vocabulary.

(* ===================================================================== *)
(** ** Vocabulary of the further properties                               *)
(* ===================================================================== *)

Section usage_vocabulary.

Import ProgressIndicator.

(** What [show()] writes for each of [frames], in order. *)
Definition rendered (frames : list string) : list event :=
  flat_map (fun f => [Write (" " +:+ f +:+ CR); Flush]) frames.

(** [n] turns of the loop of [_render] by thread [th], one after the
    other. *)
Fixpoint turns (n th : nat) (self : t) : M t :=
  match n with
  | O => ret self
  | S n' => do s <- _render th self; turns n' th s
  end.

(** [n] calls of [show()], one after the other. *)
Fixpoint shows (n : nat) (self : t) : M t :=
  match n with
  | O => ret self
  | S n' => do s <- show self; shows n' s
  end.

(** The generator computes its values from the heap alone. *)
Definition reads_heap_only (g : generator) : Prop :=
  forall st w1 w2, heap w1 = heap w2 -> gen_body g st w1 = gen_body g st w2.

(** [for v in vs: self.set_progress(v)] *)
Fixpoint set_progress_all (vs : list Q) (self : Percentage.t)
  : M Percentage.t :=
  match vs with
  | [] => ret self
  | v :: vs' => do s <- Percentage.set_progress self v; set_progress_all vs' s
  end.

End usage_vocabulary.

Section cleanup_vocabulary.

Import cleanData.

(** The directories [clean_data] works on below [out_path]. *)
Definition known (out_path directory : string) : Prop :=
  directory = out_path \/
  exists cdir, cdir ∈ directories /\ directory = Py.path_join out_path cdir.

(** Every state a computation ends in is related to the one it started
    from. *)
Definition keeps (R : disk -> disk -> Prop) {A} (c : FS A) : Prop :=
  forall d, R d (c d).2.

(** No directory appears and no directory gains a file. *)
Definition shrunk (d d' : disk) : Prop :=
  forall directory files',
    dirs d' !! directory = Some files' ->
    exists files, dirs d !! directory = Some files /\ files' ⊆ files.

(** The directories other than those of [out_path] are as they were. *)
Definition untouched_elsewhere (out_path : string) (d d' : disk) : Prop :=
  forall directory,
    ~ known out_path directory -> dirs d' !! directory = dirs d !! directory.


(** The body shared by the deletion loops: the file goes when [pred] holds
    of its name. *)
Definition delete_if (directory : string) (pred : string -> bool)
           (item : string) : FS unit :=
  if pred item then
    do_ print2 "Deleting file " (Py.path_join directory item);
    os_remove directory item
  else ret tt.



(** One deletion loop of [clean_data]: the directory it lists, the test
    its files undergo, and whether the loop is followed by [os.rmdir]. *)
Record site := Site {
  site_rmdir : bool;
  site_pred : string -> bool;
  site_dir : string
}.

(** Nothing is left to do for the loop: its directory is missing, or holds
    no file the loop would delete and, where [os.rmdir] follows, is not
    empty. *)
Definition quiet (s : site) (d : disk) : Prop :=
  match dirs d !! site_dir s with
  | None => True
  | Some files =>
      (site_rmdir s = true -> files <> []) /\
      Forall (fun f => site_pred s f = false) files
  end.



End cleanup_vocabulary.

(* ===================================================================== *)
(** ** Sanity checks of the Python built-ins                              *)
(* ===================================================================== *)

Example format_half : Py.format_6_2f (100 * (1 # 2)) = " 50.00".
Proof. reflexivity. Qed.

Example format_zero : Py.format_6_2f 0 = "  0.00".
Proof. reflexivity. Qed.

Example format_full : Py.format_6_2f (100 * 1) = "100.00".
Proof. reflexivity. Qed.

Example format_third : Py.format_6_2f (100 * (1 # 3)) = " 33.33".
Proof. reflexivity. Qed.

Example format_tie : Py.format_6_2f (1 # 8) = "  0.12".
Proof. reflexivity. Qed.

Example format_neg : Py.format_6_2f (- (1 # 1000)) = " -0.00".
Proof. reflexivity. Qed.

Example endswith_json : Py.endswith "cases_rki.json" "json" = true.
Proof. reflexivity. Qed.

Example endswith_short : Py.endswith "h5" ".h5" = false.
Proof. reflexivity. Qed.

Example contains_rki : Py.contains "_rki" "all_county_rki.json" = true.
Proof. reflexivity. Qed.

Example contains_none : Py.contains "_jh" "all_county_rki.json" = false.
Proof. reflexivity. Qed.

Example join_plain : Py.path_join "data" "Germany/" = "data/Germany/".
Proof. reflexivity. Qed.

Example join_slash : Py.path_join "data/" "Germany/" = "data/Germany/".
Proof. reflexivity. Qed.

Example float_third :
  Py.mul_int_float 69 (6004799503160661 # 18014398509481984) == 23 /\
  Qfloor (69 * (6004799503160661 # 18014398509481984)) = 22.
Proof. by vm_compute. Qed.

Example float_tenth :
  Py.binary64 (1 # 10) == 3602879701896397 # 36028797018963968 /\
  Py.mul_int_float 3 (3602879701896397 # 36028797018963968)
  == 5404319552844596 # 18014398509481984.
Proof. by vm_compute. Qed.

Example int_trunc : Py.int (- (3 # 2)) = -1 /\ Qfloor (- (3 # 2)) = -2.
Proof. split; reflexivity. Qed.

(* ===================================================================== *)
(** ** Strings                                                            *)
(* ===================================================================== *)

Section strings.

Implicit Types s t u : string.

Lemma str_app_nil t : "" +:+ t = t.
Proof. reflexivity. Qed.

Lemma str_app_cons c s t : String c s +:+ t = String c (s +:+ t).
Proof. reflexivity. Qed.

Lemma str_length_app s t :
  String.length (s +:+ t) = (String.length s + String.length t)%nat.
Proof.
  induction s as [|c s IH]; [done|].
  rewrite str_app_cons. simpl. by rewrite IH.
Qed.

Lemma len_app s t : Py.len (s +:+ t) = Py.len s + Py.len t.
Proof. unfold Py.len. rewrite str_length_app. lia. Qed.

Lemma str_app_assoc s t u : (s +:+ t) +:+ u = s +:+ (t +:+ u).
Proof.
  induction s as [|c s IH]; [done|].
  by rewrite !str_app_cons, IH.
Qed.

Lemma length_repeat_str s n :
  String.length (Py.repeat_str s n) = (n * String.length s)%nat.
Proof.
  induction n as [|n IH]; simpl; [done|].
  by rewrite str_length_app, IH.
Qed.

Lemma str_mul_nonpos s n : n <= 0 -> Py.str_mul s n = "".
Proof.
  intros Hn. unfold Py.str_mul.
  replace (Z.to_nat n) with 0%nat by lia. done.
Qed.

Lemma len_str_mul s n : 0 <= n -> Py.len (Py.str_mul s n) = n * Py.len s.
Proof.
  intros Hn. unfold Py.len, Py.str_mul. rewrite length_repeat_str. lia.
Qed.

End strings.

(* ===================================================================== *)
(** ** show                                                               *)
(* ===================================================================== *)

Section show.

Import ProgressIndicator.

Lemma next_world g w : (next g w).2 = w.
Proof. unfold next. by destruct (gen_body g (gen_cur g) w). Qed.

Lemma show_ok self w frame g :
  next (_animator self) w = (Ok (frame, g), w) ->
  show self w
  = (Ok (advanced self g), printed w [Write (" " +:+ frame +:+ CR); Flush]).
Proof.
  intros Hn. unfold show, bind. rewrite Hn. simpl.
  unfold printed. simpl. by rewrite <- List.app_assoc.
Qed.

Lemma show_raise self w e :
  (next (_animator self) w).1 = Raise e -> show self w = (Raise e, w).
Proof.
  intros Hn. unfold show, bind.
  destruct (next (_animator self) w) as [r w'] eqn:E.
  pose proof (next_world (_animator self) w) as Hw. rewrite E in Hw.
  simpl in *. by subst.
Qed.

Lemma show_hang self w :
  (next (_animator self) w).1 = Hang -> show self w = (Hang, w).
Proof.
  intros Hn. unfold show, bind.
  destruct (next (_animator self) w) as [r w'] eqn:E.
  pose proof (next_world (_animator self) w) as Hw. rewrite E in Hw.
  simpl in *. by subst.
Qed.

End show.

(** C10: every call of [show()], whatever the frame sequence and the state
    of the indicator, writes one space, the next frame and one carriage
    return as a single string without a newline of its own, then flushes;
    nothing else changes but the position of the animator, and the text put
    on the line is one character wider than the frame. *)
Theorem show_writes_space_frame_cr
        (self : ProgressIndicator.t) (w : world) (frame : string) (g : generator) :
  next (ProgressIndicator._animator self) w = (Ok (frame, g), w) ->
  ProgressIndicator.show self w
  = (Ok (ProgressIndicator.advanced self g),
     World (stdout w ++ [Write (" " +:+ frame +:+ CR); Flush])
           (heap w) (threads w) (terminal w))
  /\ Py.len (" " +:+ frame) = Py.len frame + 1
  /\ String.length (" " +:+ frame +:+ CR) = (String.length frame + 2)%nat.
Proof.
  intros Hn. split; [|split].
  - by rewrite (show_ok _ _ _ _ Hn).
  - rewrite len_app. unfold Py.len. simpl. lia.
  - rewrite !str_length_app. simpl. lia.
Qed.

Lemma show_writes_space_frame_cr_witness :
  ProgressIndicator.show
    (ProgressIndicator.Indicator (ProgressIndicator.spin "wait ") (1 # 10) None false)
    (World [] [] [] (Some 80))
  = (Ok (ProgressIndicator.advanced
           (ProgressIndicator.Indicator (ProgressIndicator.spin "wait ") (1 # 10) None false)
           (Generator (list string) ["/"; "-"; "\"]
                      (gen_body (ProgressIndicator.spin "wait ")))),
     World ([] ++ [Write (" " +:+ "wait |" +:+ CR); Flush]) [] [] (Some 80))
  /\ Py.len (" " +:+ "wait |") = Py.len "wait |" + 1
  /\ String.length (" " +:+ "wait |" +:+ CR) = (String.length "wait |" + 2)%nat.
Proof.
  apply (show_writes_space_frame_cr
           (ProgressIndicator.Indicator (ProgressIndicator.spin "wait ") (1 # 10) None false)
           (World [] [] [] (Some 80)) "wait |").
  reflexivity.
Defined.

(* ===================================================================== *)
(** ** start and stop                                                     *)
(* ===================================================================== *)

Section threads.

Implicit Types l : list bool.

Lemma live_none l :
  live l = 0%nat <->
  (forall i, l !! i <> Some true).
Proof.
  unfold live. induction l as [|b l IH].
  - split; [intros _ i; by rewrite lookup_nil | done].
  - destruct b.
    + rewrite filter_cons_True by done. split; [done|].
      intros H. by destruct (H 0%nat).
    + rewrite filter_cons_False by done. rewrite IH. split.
      * intros H [|i]; [done | apply H].
      * intros H i. apply (H (S i)).
Qed.

Lemma live_at_most_one l :
  (forall i j, l !! i = Some true -> l !! j = Some true -> i = j) ->
  (live l <= 1)%nat.
Proof.
  induction l as [|b l IH]; intros H; [unfold live; simpl; lia|].
  unfold live in *. destruct b.
  - rewrite filter_cons_True by done. simpl.
    assert (length (filter (fun b => b = true) l) = 0%nat) as ->; [|lia].
    apply (live_none l). intros i Hi.
    by specialize (H 0%nat (S i) eq_refl Hi).
  - rewrite filter_cons_False by done. apply IH.
    intros i j Hi Hj. by specialize (H (S i) (S j) Hi Hj) as [= ->].
Qed.

Lemma exit_quietens l th i :
  <[th := false]> l !! i = Some true -> l !! i = Some true.
Proof.
  destruct (decide (i = th)) as [->|Hne].
  - destruct (decide (th < length l)%nat) as [Hlt|Hge].
    + by rewrite list_lookup_insert_eq.
    + by rewrite list_insert_ge by lia.
  - by rewrite list_lookup_insert_ne.
Qed.

Lemma exit_kills l th : <[th := false]> l !! th <> Some true.
Proof.
  destruct (decide (th < length l)%nat) as [Hlt|Hge].
  - by rewrite list_lookup_insert_eq.
  - rewrite list_insert_ge by lia. rewrite lookup_ge_None_2 by lia. done.
Qed.

End threads.

Section indicator_invariant.

Import ProgressIndicator.

Lemma owns_threads_alive self w : owns_threads self w -> (alive w <= 1)%nat.
Proof.
  intros [_ H]. unfold alive. apply live_at_most_one. intros i j Hi Hj.
  apply H in Hi, Hj. congruence.
Qed.

Lemma owns_threads_init animator delay w self w' :
  alive w = 0%nat ->
  __init__ animator delay w = (Ok self, w') ->
  owns_threads self w'.
Proof.
  unfold __init__, bind, assert. intros Hw.
  destruct (Py.gt0 delay); simpl; [|done].
  intros [= <- <-]. pose proof (proj1 (live_none _) Hw) as Hnone.
  split; [done|]. intros i Hi. by destruct (Hnone i).
Qed.

Lemma owns_threads_show self w :
  owns_threads self w ->
  owns_threads (after self (show self w).1) (show self w).2.
Proof.
  intros Hinv.
  destruct (next (_animator self) w) as [[[f g]|e|] w'] eqn:E;
    pose proof (next_world (_animator self) w) as Hw;
    rewrite E in Hw; simpl in Hw; subst w'.
  - by rewrite (show_ok _ _ _ _ E).
  - by rewrite (show_raise self w e) by (by rewrite E).
  - by rewrite (show_hang self w) by (by rewrite E).
Qed.

Lemma owns_threads_start self w :
  owns_threads self w ->
  owns_threads (after self (start self w).1) (start self w).2.
Proof.
  intros Hinv. pose proof Hinv as [Hoff Hown]. unfold start.
  destruct (_enabled self) eqn:En; simpl; [done|].
  split; simpl; [done|].
  intros i Hi. destruct (decide (i < length (threads w))%nat) as [Hlt|Hge].
  - rewrite lookup_app_l in Hi by done. by destruct (Hoff eq_refl i).
  - destruct (decide (i = length (threads w))) as [->|Hne]; [done|].
    rewrite lookup_ge_None_2 in Hi; [done|].
    rewrite length_app. simpl. lia.
Qed.

Lemma owns_threads_stop self w :
  owns_threads self w ->
  owns_threads (after self (stop self w).1) (stop self w).2.
Proof.
  intros Hinv. pose proof Hinv as [Hoff Hown]. unfold stop.
  destruct (_enabled self) eqn:En; simpl; [|done].
  assert (forall w' : world,
    (forall i, threads w' !! i <> Some true) ->
    owns_threads
      {| _animator := _animator self; _delay := _delay self;
         _thread := _thread self; _enabled := false |}
      (World (stdout w' ++ [Write ESC_K]) (heap w') (threads w') (terminal w')))
    as Hdone.
  { intros w' H. split; simpl; [done|]. intros i Hi. by destruct (H i). }
  destruct (_thread self) as [th|] eqn:Th.
  - unfold bind, thread_is_alive, join, thread_exit. simpl.
    destruct (default false (threads w !! th)) eqn:A; simpl.
    + apply (Hdone (World (stdout w) (heap w) (<[th:=false]> (threads w)) (terminal w))).
      simpl. intros i Hi.
      pose proof (exit_quietens _ _ _ Hi) as Hi'.
      apply Hown in Hi'. injection Hi' as <-. by apply exit_kills in Hi.
    + apply Hdone. intros i Hi. pose proof (Hown i Hi) as [= <-].
      by rewrite Hi in A.
  - unfold bind. simpl. apply Hdone. intros i Hi. by specialize (Hown i Hi).
Qed.

Lemma owns_threads_exit self w th :
  owns_threads self w ->
  owns_threads self (thread_exit th w).2.
Proof.
  intros [Hoff Hown]. split; simpl.
  - intros En i Hi. apply exit_quietens in Hi. by destruct (Hoff En i).
  - intros i Hi. apply exit_quietens in Hi. auto.
Qed.

Lemma owns_threads_render th self w :
  owns_threads self w ->
  owns_threads (after self (_render th self w).1) (_render th self w).2.
Proof.
  intros Hinv. unfold _render, bind, thread_is_alive. simpl.
  destruct (default false (threads w !! th)); simpl; [|done].
  destruct (_enabled self) eqn:En.
  - unfold try_except.
    destruct (next (_animator self) w) as [[[f g]|e|] w'] eqn:E;
      pose proof (next_world (_animator self) w) as Hw;
      rewrite E in Hw; simpl in Hw; subst w'.
    + rewrite (show_ok _ _ _ _ E). simpl.
      destruct Hinv as [Hoff Hown]. by split.
    + rewrite (show_raise self w e) by (by rewrite E). simpl.
      by apply (owns_threads_exit self w th).
    + by rewrite (show_hang self w) by (by rewrite E).
  - simpl. by apply (owns_threads_exit self w th).
Qed.

Lemma reachable_owns_threads self w :
  IndicatorUse.reachable self w -> owns_threads self w.
Proof.
  induction 1 as [animator delay w self w' Hw Hinit | o self w _ IH].
  - by eapply owns_threads_init.
  - destruct o; simpl.
    + by apply owns_threads_start.
    + by apply owns_threads_stop.
    + by apply owns_threads_show.
    + by apply owns_threads_render.
Qed.

End indicator_invariant.

(** C4: [start()] and [stop()] are idempotent.  With the running flag set,
    [start()] returns with the object and the world as they were, so no
    second background thread is started; with the flag cleared, [stop()]
    returns with the object and the world as they were, so nothing is
    written.  Calling either twice in a row is the same as calling it once,
    and in every state an indicator can be brought to at most one
    background thread is alive, also right after a further [start()]. *)
Theorem start_stop_idempotent (self : ProgressIndicator.t) (w : world) :
  (ProgressIndicator._enabled self = true ->
   ProgressIndicator.start self w = (Ok self, w)) /\
  (ProgressIndicator._enabled self = false ->
   ProgressIndicator.stop self w = (Ok self, w)) /\
  (do s <- ProgressIndicator.start self; ProgressIndicator.start s) w
  = ProgressIndicator.start self w /\
  (do s <- ProgressIndicator.stop self; ProgressIndicator.stop s) w
  = ProgressIndicator.stop self w /\
  (IndicatorUse.reachable self w ->
   (alive w <= 1)%nat /\ (alive (ProgressIndicator.start self w).2 <= 1)%nat).
Proof.
  split; [|split; [|split; [|split]]].
  - intros En. unfold ProgressIndicator.start. by rewrite En.
  - intros En. unfold ProgressIndicator.stop. by rewrite En.
  - unfold ProgressIndicator.start, bind.
    by destruct (ProgressIndicator._enabled self) eqn:En; simpl; [rewrite En|].
  - unfold ProgressIndicator.stop, bind.
    destruct (ProgressIndicator._enabled self) eqn:En; simpl; [|by rewrite En].
    destruct (ProgressIndicator._thread self) as [th|]; simpl; [|done].
    unfold thread_is_alive. simpl.
    by destruct (default false (threads w !! th)).
  - intros Hreach. apply reachable_owns_threads in Hreach. split.
    + by apply (owns_threads_alive self).
    + apply (owns_threads_alive
               (after self (ProgressIndicator.start self w).1)).
      by apply owns_threads_start.
Qed.

Lemma start_stop_idempotent_witness :
  let w0 := World [] [] [] (Some 80) in
  let s0 := ProgressIndicator.Indicator (ProgressIndicator.spin "") (1 # 10) None false in
  let w1 := World [] [] [true] (Some 80) in
  let s1 := ProgressIndicator.Indicator (ProgressIndicator.spin "") (1 # 10) (Some 0%nat) true in
  ProgressIndicator.start s1 w1 = (Ok s1, w1) /\
  ProgressIndicator.stop s0 w0 = (Ok s0, w0) /\
  (alive w1 <= 1)%nat /\ (alive (ProgressIndicator.start s1 w1).2 <= 1)%nat.
Proof.
  intros w0 s0 w1 s1.
  assert (IndicatorUse.reachable s1 w1) as Hreach.
  { apply (IndicatorUse.reach_op IndicatorUse.call_start s0 w0).
    by apply (IndicatorUse.reach_new (ProgressIndicator.spin "") (1 # 10) w0). }
  split; [|split].
  - by apply (start_stop_idempotent s1 w1).
  - by apply (start_stop_idempotent s0 w0).
  - by apply (start_stop_idempotent s1 w1).
Defined.

(* ===================================================================== *)
(** ** The frames of Dots and Spinner                                     *)
(* ===================================================================== *)

Section frames.

Import ProgressIndicator.

Lemma frame_at_0 g w s g' :
  next g w = (Ok (s, g'), w) -> frame_at 0 g w = Some s.
Proof. intros H. unfold frame_at. simpl. by rewrite H. Qed.

Lemma frame_at_S k g w s g' :
  next g w = (Ok (s, g'), w) -> frame_at (S k) g w = frame_at k g' w.
Proof.
  intros H. unfold frame_at.
  change (take_frames (S (S k)) g w)
    with (match next g w with
          | (Ok (s, g'), w') => s :: take_frames (S k) g' w'
          | _ => []
          end).
  by rewrite H.
Qed.

Lemma dots_next message num_dots dot blank n w :
  0 < num_dots -> 1 <= n <= num_dots + 1 ->
  next (Generator Z n (gen_body (dots message num_dots dot blank))) w
  = (Ok (dots_frame message num_dots dot blank ((n - 1) mod num_dots + 1),
         Generator Z ((n - 1) mod num_dots + 2)
                   (gen_body (dots message num_dots dot blank))), w).
Proof.
  intros Hnd Hn. unfold next. simpl.
  destruct (Z.leb_spec n num_dots) as [Hle|Hgt].
  - rewrite Z.mod_small by lia.
    replace (n - 1 + 1) with n by lia. replace (n - 1 + 2) with (n + 1) by lia.
    destruct (Z.leb_spec n num_dots); [done | lia].
  - assert (n = num_dots + 1) as -> by lia.
    replace (num_dots + 1 - 1) with num_dots by lia.
    rewrite Z_mod_same_full. simpl.
    destruct (Z.leb_spec 1 num_dots); [done | lia].
Qed.

Lemma dots_frame_at message num_dots dot blank w k : forall n,
  0 < num_dots -> 1 <= n <= num_dots + 1 ->
  frame_at k (Generator Z n (gen_body (dots message num_dots dot blank))) w
  = Some (dots_frame message num_dots dot blank
                     ((n - 1 + Z.of_nat k) mod num_dots + 1)).
Proof.
  induction k as [|k IH]; intros n Hnd Hn.
  - rewrite (frame_at_0 _ _ _ _ (dots_next message num_dots dot blank n w Hnd Hn)).
    by rewrite Z.add_0_r.
  - rewrite (frame_at_S _ _ _ _ _ (dots_next message num_dots dot blank n w Hnd Hn)).
    pose proof (Z.mod_pos_bound (n - 1) num_dots Hnd) as Hb.
    rewrite IH by lia. do 3 f_equal.
    replace ((n - 1) mod num_dots + 2 - 1 + Z.of_nat k)
      with ((n - 1) mod num_dots + (1 + Z.of_nat k)) by lia.
    rewrite Zplus_mod_idemp_l. f_equal. lia.
Qed.

Lemma dots_frame_len message num_dots dot blank i :
  1 <= i <= num_dots -> Py.len dot = Py.len blank ->
  Py.len (dots_frame message num_dots dot blank i)
  = Py.len message + num_dots * Py.len dot.
Proof.
  intros Hi Heq. unfold dots_frame.
  rewrite !len_app, !len_str_mul by lia. rewrite <- Heq. lia.
Qed.

End frames.

(* ===================================================================== *)
(** ** Construction                                                       *)
(* ===================================================================== *)

Section construction.

Import ProgressIndicator.

Lemma bind_at {S A B} (c : ST S A) (k : A -> ST S B) w :
  bind c k w
  = match c w with
    | (Ok a, w') => k a w'
    | (Raise e, w') => (Raise e, w')
    | (Hang, w') => (Hang, w')
    end.
Proof. reflexivity. Qed.

Lemma gt0_true delay : Py.gt0 delay = true <-> (0 < delay)%Q.
Proof.
  unfold Py.gt0. rewrite negb_true_iff, <- not_true_iff_false, Qle_bool_iff.
  split; [apply Qnot_le_lt | apply Qlt_not_le].
Qed.

Lemma gt0_false delay : Py.gt0 delay = false <-> (delay <= 0)%Q.
Proof. unfold Py.gt0. by rewrite negb_false_iff, Qle_bool_iff. Qed.

Lemma init_eq animator delay w :
  __init__ animator delay w
  = if Py.gt0 delay
    then (Ok (Indicator animator delay None false), w)
    else (Raise AssertionError, w).
Proof. unfold __init__, bind, assert. by destruct (Py.gt0 delay). Qed.

Lemma guard_eq (too_narrow : bool) message w :
  (if too_narrow then do_ print message; ret "" else ret message) w
  = (Ok (guarded too_narrow message), guard_output too_narrow message w).
Proof.
  destruct too_narrow; [|done].
  unfold guarded, guard_output, print, bind, printed. simpl.
  by rewrite <- List.app_assoc.
Qed.

Lemma Spinner_eq delay message w :
  Spinner delay message w
  = match terminal w with
    | None => (Raise OSError, w)
    | Some columns =>
        let narrow := columns <? Py.len message + 2 in
        __init__ (spin (guarded narrow message)) delay
                 (guard_output narrow message w)
    end.
Proof.
  unfold Spinner. rewrite bind_at. unfold get_terminal_size_columns.
  destruct (terminal w) as [c|]; [|done].
  by rewrite bind_at, guard_eq.
Qed.

Lemma Dots_eq delay message num_dots dot blank w :
  Dots delay message num_dots dot blank w
  = if negb (Py.len dot =? Py.len blank) then (Raise AssertionError, w)
    else if negb (0 <? num_dots) then (Raise AssertionError, w)
    else match terminal w with
         | None => (Raise OSError, w)
         | Some columns =>
             let narrow := columns <? num_dots + Py.len message + 1 in
             __init__ (dots (guarded narrow message) num_dots dot blank) delay
                      (guard_output narrow message w)
         end.
Proof.
  unfold Dots. rewrite bind_at. unfold assert.
  destruct (Py.len dot =? Py.len blank); simpl; [|done].
  rewrite bind_at. destruct (0 <? num_dots); simpl; [|done].
  rewrite bind_at. unfold get_terminal_size_columns.
  destruct (terminal w) as [c|]; [|done].
  by rewrite bind_at, guard_eq.
Qed.

End construction.

(* ===================================================================== *)
(** ** Products of floats                                                 *)
(* ===================================================================== *)

Ltac compared :=
  repeat match goal with
         | H : (_ ?= _)%Q = Eq |- _ => apply Qeq_alt in H
         | H : (_ ?= _)%Q = Lt |- _ => apply Qlt_alt in H
         | H : (_ ?= _)%Q = Gt |- _ => apply Qgt_alt in H
         end.

Section rounding.

Lemma round_half_even_proper (x y : Q) :
  (x == y)%Q -> Py.round_half_even x = Py.round_half_even y.
Proof.
  intros H. unfold Py.round_half_even.
  rewrite (Qfloor_comp _ _ H).
  assert (((x - inject_Z (Qfloor y)) ?= (1 # 2))
          = ((y - inject_Z (Qfloor y)) ?= (1 # 2)))%Q as ->; [|done].
  by rewrite H.
Qed.

Lemma round_half_even_Z (n : Z) : Py.round_half_even (inject_Z n) = n.
Proof.
  unfold Py.round_half_even. rewrite Qfloor_Z.
  assert (((inject_Z n - inject_Z n) ?= (1 # 2)) = Lt)%Q as ->; [|done].
  apply (proj1 (Qlt_alt _ _)). lra.
Qed.

Lemma round_half_even_mono (x y : Q) :
  (x <= y)%Q -> Py.round_half_even x <= Py.round_half_even y.
Proof.
  intros H. unfold Py.round_half_even.
  pose proof (Qfloor_resp_le _ _ H) as Hf.
  pose proof (Qfloor_le x) as Hx. pose proof (Qlt_floor x) as Hx'.
  pose proof (Qfloor_le y) as Hy. pose proof (Qlt_floor y) as Hy'.
  destruct (Z.eq_dec (Qfloor x) (Qfloor y)) as [E|E].
  - rewrite E in *.
    destruct (Qcompare (x - inject_Z (Qfloor y)) (1 # 2)) eqn:Cx;
      destruct (Qcompare (y - inject_Z (Qfloor y)) (1 # 2)) eqn:Cy;
      try (destruct (Z.even (Qfloor y))); try lia;
      compared; exfalso; lra.
  - destruct (Qcompare (x - inject_Z (Qfloor x)) (1 # 2));
      destruct (Qcompare (y - inject_Z (Qfloor y)) (1 # 2));
      try (destruct (Z.even (Qfloor x))); try (destruct (Z.even (Qfloor y)));
      lia.
Qed.

End rounding.

Section binary64.

Lemma pow2_pos (e : Z) : (0 < 2 ^ e)%Q.
Proof. by apply Qpower_0_lt. Qed.

Lemma pow2_plus (a b : Z) : (2 ^ (a + b) == 2 ^ a * 2 ^ b)%Q.
Proof. by apply Qpower_plus. Qed.

Lemma pow2_le (a b : Z) : a <= b -> (2 ^ a <= 2 ^ b)%Q.
Proof. intros H. by apply Qpower_le_compat_l. Qed.

Lemma pow2_Z (n : Z) : 0 <= n -> (inject_Z (2 ^ n) == 2 ^ n)%Q.
Proof. intros H. by rewrite Zpower_Qpower. Qed.

Lemma pow2_cancel (e : Z) : (2 ^ (- e) * 2 ^ e == 1)%Q.
Proof. rewrite <- pow2_plus. by replace (- e + e) with 0 by lia. Qed.

Lemma ilog2_proper (x y : Q) : (x == y)%Q -> Py.ilog2 x = Py.ilog2 y.
Proof.
  intros H. unfold Py.ilog2.
  assert (Qle_bool 1 x = Qle_bool 1 y) as ->.
  { destruct (Qle_bool 1 y) eqn:Hy.
    - apply Qle_bool_iff. apply Qle_bool_iff in Hy. by rewrite H.
    - destruct (Qle_bool 1 x) eqn:Hx; [|done].
      apply Qle_bool_iff in Hx. rewrite H in Hx.
      apply Qle_bool_iff in Hx. congruence. }
  by rewrite (Qfloor_comp _ _ H), (Qceiling_comp (/ x) (/ y)) by (by rewrite H).
Qed.

Lemma ilog2_spec (q : Q) :
  (0 < q)%Q -> (2 ^ Py.ilog2 q <= q)%Q /\ (q < 2 ^ (Py.ilog2 q + 1))%Q.
Proof.
  intros Hq. unfold Py.ilog2. destruct (Qle_bool 1 q) eqn:H1.
  - apply Qle_bool_iff in H1.
    pose proof (Qfloor_resp_le _ _ H1) as Hf. change (Qfloor 1) with 1 in Hf.
    pose proof (Z.log2_spec (Qfloor q) ltac:(lia)) as [Hlo Hhi].
    pose proof (Z.log2_nonneg (Qfloor q)) as Hk.
    split.
    + rewrite <- pow2_Z by done.
      apply Qle_trans with (inject_Z (Qfloor q)); [|apply Qfloor_le].
      by rewrite <- Zle_Qle.
    + rewrite <- pow2_Z by lia.
      apply Qlt_le_trans with (inject_Z (Qfloor q + 1)); [apply Qlt_floor|].
      rewrite <- Zle_Qle. change (Z.succ (Z.log2 (Qfloor q)))
        with (Z.log2 (Qfloor q) + 1) in Hhi. lia.
  - assert (q < 1)%Q as Hlt.
    { apply Qnot_le_lt. intros H. apply Qle_bool_iff in H. congruence. }
    assert (/ q * q == 1)%Q as Hinv
      by (rewrite Qmult_comm; apply Qmult_inv_r; lra).
    assert (0 < / q)%Q as Hy by (by apply Qinv_lt_0_compat).
    assert (1 < / q)%Q as Hy1 by nra.
    set (c := Qceiling (/ q)).
    pose proof (Qle_ceiling (/ q)) as Hc. fold c in Hc.
    pose proof (Qceiling_lt (/ q)) as Hc'. fold c in Hc'.
    assert (1 < c) as Hc1.
    { rewrite Zlt_Qlt. change (inject_Z 1) with 1%Q. lra. }
    pose proof (Z.log2_up_spec c Hc1) as [Hlo Hhi].
    pose proof (Z.log2_up_pos c Hc1) as Hk.
    set (k := Z.log2_up c) in *.
    pose proof (pow2_cancel k) as Hcancel.
    pose proof (pow2_pos k) as Hp. pose proof (pow2_pos (- k)) as Hn.
    split.
    + assert (/ q <= 2 ^ k)%Q as Hle.
      { apply Qle_trans with (inject_Z c); [done|].
        rewrite <- pow2_Z by lia. by rewrite <- Zle_Qle. }
      assert (1 <= 2 ^ k * q)%Q by nra.
      nra.
    + assert (2 ^ (k - 1) < / q)%Q as Hlt'.
      { apply Qle_lt_trans with (inject_Z (c - 1)); [|done].
        rewrite <- pow2_Z by lia. rewrite <- Zle_Qle.
        change (Z.pred k) with (k - 1) in Hlo. lia. }
      replace (- k + 1) with (- (k - 1)) by lia.
      pose proof (pow2_cancel (k - 1)) as Hcancel'.
      pose proof (pow2_pos (k - 1)) as Hp'.
      pose proof (pow2_pos (- (k - 1))) as Hn'.
      assert (2 ^ (k - 1) * q < 1)%Q by nra.
      nra.
Qed.

Lemma ilog2_mono (a b : Q) :
  (0 < a)%Q -> (a <= b)%Q -> Py.ilog2 a <= Py.ilog2 b.
Proof.
  intros Ha Hab.
  destruct (ilog2_spec a Ha) as [Hlo _].
  destruct (ilog2_spec b ltac:(lra)) as [_ Hhi].
  assert (2 ^ Py.ilog2 a < 2 ^ (Py.ilog2 b + 1))%Q as H by lra.
  apply Qpower_lt_compat_l_inv in H; [lia|done].
Qed.

Lemma round_at_mono (e : Z) (x y : Q) :
  (x <= y)%Q -> (Py.round_at e x <= Py.round_at e y)%Q.
Proof.
  intros H. unfold Py.round_at. pose proof (pow2_pos e) as Hp.
  apply Qmult_le_compat_r; [|lra]. rewrite <- Zle_Qle.
  apply round_half_even_mono. apply Qmult_le_compat_r; [done|].
  apply Qlt_le_weak, Qinv_lt_0_compat, Hp.
Qed.

Lemma round_at_Z (e n : Z) (q : Q) :
  (q == inject_Z n * 2 ^ e)%Q -> (Py.round_at e q == q)%Q.
Proof.
  intros H. unfold Py.round_at. pose proof (pow2_pos e) as Hp.
  rewrite (round_half_even_proper _ (inject_Z n)), round_half_even_Z.
  - by rewrite H.
  - rewrite H. field. lra.
Qed.

Lemma round_at_proper (e : Z) (x y : Q) :
  (x == y)%Q -> Py.round_at e x = Py.round_at e y.
Proof.
  intros H. unfold Py.round_at.
  by rewrite (round_half_even_proper (x / 2 ^ e) (y / 2 ^ e)) by (by rewrite H).
Qed.

Lemma Qeq_bool_proper (x y : Q) : (x == y)%Q -> Qeq_bool x 0 = Qeq_bool y 0.
Proof.
  intros H. destruct (Qeq_bool y 0) eqn:Hy.
  - apply Qeq_bool_iff. apply Qeq_bool_iff in Hy. by rewrite H.
  - destruct (Qeq_bool x 0) eqn:Hx; [|done].
    apply Qeq_bool_iff in Hx. rewrite H in Hx.
    apply Qeq_bool_iff in Hx. congruence.
Qed.

Lemma binary64_proper (x y : Q) :
  (x == y)%Q -> Py.binary64 x = Py.binary64 y.
Proof.
  intros H. unfold Py.binary64. rewrite (Qeq_bool_proper _ _ H).
  destruct (Qeq_bool y 0); [done|].
  rewrite (ilog2_proper (Qabs x) (Qabs y)) by (by rewrite H).
  by apply round_at_proper.
Qed.

Lemma binary64_nonneg (q : Q) : (0 <= q)%Q -> (0 <= Py.binary64 q)%Q.
Proof.
  intros H. unfold Py.binary64. destruct (Qeq_bool q 0); [lra|].
  set (e := Z.max _ _).
  apply Qle_trans with (Py.round_at e 0); [|by apply round_at_mono].
  rewrite (round_at_Z e 0); [lra|]. change (inject_Z 0) with 0%Q. lra.
Qed.

Lemma binary64_nonpos (q : Q) : (q <= 0)%Q -> (Py.binary64 q <= 0)%Q.
Proof.
  intros H. unfold Py.binary64. destruct (Qeq_bool q 0); [lra|].
  set (e := Z.max _ _).
  apply Qle_trans with (Py.round_at e 0); [by apply round_at_mono|].
  rewrite (round_at_Z e 0); [lra|]. change (inject_Z 0) with 0%Q. lra.
Qed.

Lemma binary64_pos (q : Q) :
  (0 < q)%Q ->
  Py.binary64 q = Py.round_at (Z.max (Py.ilog2 q - 52) (-1074)) q.
Proof.
  intros H. unfold Py.binary64.
  destruct (Qeq_bool q 0) eqn:E; [apply Qeq_bool_iff in E; lra|].
  by rewrite (ilog2_proper (Qabs q) q) by (apply Qabs_pos; lra).
Qed.

Lemma binary64_mono_pos (a b : Q) :
  (0 < a)%Q -> (a <= b)%Q -> (Py.binary64 a <= Py.binary64 b)%Q.
Proof.
  intros Ha Hab. rewrite !binary64_pos by lra.
  pose proof (ilog2_mono a b Ha Hab) as Hlog.
  destruct (ilog2_spec a Ha) as [_ Hhi].
  destruct (ilog2_spec b ltac:(lra)) as [Hlo _].
  set (ea := Z.max (Py.ilog2 a - 52) (-1074)).
  set (eb := Z.max (Py.ilog2 b - 52) (-1074)).
  destruct (Z.eq_dec ea eb) as [E|E]; [rewrite E; by apply round_at_mono|].
  assert (ea < eb) as Hlt by lia.
  assert (eb = Py.ilog2 b - 52) as Heb by lia.
  apply Qle_trans with (inject_Z (2 ^ 53) * 2 ^ ea)%Q.
  - rewrite <- (round_at_Z ea (2 ^ 53) (inject_Z (2 ^ 53) * 2 ^ ea)) by done.
    apply round_at_mono.
    rewrite pow2_Z, <- pow2_plus by lia.
    apply Qlt_le_weak, Qlt_le_trans with (2 ^ (Py.ilog2 a + 1))%Q; [done|].
    apply pow2_le. lia.
  - apply Qle_trans with (inject_Z (2 ^ 52) * 2 ^ eb)%Q.
    + rewrite !pow2_Z, <- !pow2_plus by lia. apply pow2_le. lia.
    + rewrite <- (round_at_Z eb (2 ^ 52) (inject_Z (2 ^ 52) * 2 ^ eb)) by done.
      apply round_at_mono.
      rewrite pow2_Z, <- pow2_plus by lia.
      by replace (52 + eb) with (Py.ilog2 b) by lia.
Qed.

(** Rounding keeps the order of numbers that are not negative. *)
Lemma binary64_mono (a b : Q) :
  (0 <= a)%Q -> (a <= b)%Q -> (Py.binary64 a <= Py.binary64 b)%Q.
Proof.
  intros Ha Hab. destruct (Qeq_bool a 0) eqn:E.
  - apply Qeq_bool_iff in E. rewrite (binary64_proper a 0) by done.
    change (Py.binary64 0) with 0%Q. apply binary64_nonneg. lra.
  - apply binary64_mono_pos; [|done].
    assert (~ a == 0)%Q by (intros H; apply Qeq_bool_iff in H; congruence).
    lra.
Qed.

(** The integers up to [2^53] are binary64 numbers. *)
Lemma binary64_Z (n : Z) :
  0 <= n <= 2 ^ 53 -> (Py.binary64 (inject_Z n) == inject_Z n)%Q.
Proof.
  intros Hn. destruct (Z.eq_dec n 0) as [->|Hn0]; [done|].
  rewrite binary64_pos
    by (change 0%Q with (inject_Z 0); rewrite <- Zlt_Qlt; lia).
  unfold Py.ilog2.
  assert (Qle_bool 1 (inject_Z n) = true) as ->.
  { apply Qle_bool_iff. change 1%Q with (inject_Z 1).
    rewrite <- Zle_Qle. lia. }
  rewrite Qfloor_Z.
  pose proof (Z.log2_spec n ltac:(lia)) as [Hlo Hhi].
  pose proof (Z.log2_nonneg n) as Hk.
  set (k := Z.log2 n) in *.
  assert (k <= 53) as Hk53.
  { apply (Z.pow_le_mono_r_iff 2 k 53); lia. }
  rewrite Z.max_l by lia.
  destruct (Z.eq_dec k 53) as [E|E].
  - assert (n = 2 ^ 53) as -> by (rewrite E in Hlo; lia).
    rewrite E. by apply (round_at_Z _ (2 ^ 52)).
  - apply (round_at_Z _ (n * 2 ^ (52 - k))).
    rewrite inject_Z_mult, pow2_Z by lia.
    rewrite <- Qmult_assoc, <- pow2_plus.
    replace (52 - k + (k - 52)) with 0 by lia.
    change (2 ^ 0)%Q with 1%Q. lra.
Qed.

End binary64.

Section signs.

Lemma Qceiling_floor (x : Q) :
  ~ (x == inject_Z (Qfloor x))%Q -> Qceiling x = Qfloor x + 1.
Proof.
  intros H.
  pose proof (Qfloor_le x) as H1. pose proof (Qlt_floor x) as H2.
  pose proof (Qle_ceiling x) as H3. pose proof (Qceiling_lt x) as H4.
  assert (inject_Z (Qfloor x) < inject_Z (Qceiling x))%Q as Ha by lra.
  assert (inject_Z (Qceiling x - 1) < inject_Z (Qfloor x + 1))%Q as Hb by lra.
  rewrite <- Zlt_Qlt in Ha, Hb. lia.
Qed.

Lemma round_half_even_opp (x : Q) :
  Py.round_half_even (- x) = - Py.round_half_even x.
Proof.
  destruct (Qeq_dec x (inject_Z (Qfloor x))) as [E|E].
  - rewrite (round_half_even_proper x _ E), round_half_even_Z.
    rewrite (round_half_even_proper (- x) (inject_Z (- Qfloor x))),
      round_half_even_Z; [done|].
    rewrite E at 1. by rewrite inject_Z_opp.
  - pose proof (Qceiling_floor x E) as Hc. unfold Qceiling in Hc.
    assert (Qfloor (- x) = - (Qfloor x + 1)) as Hf by lia.
    unfold Py.round_half_even. rewrite Hf.
    pose proof (Qfloor_le x) as H1.
    assert (inject_Z (- (Qfloor x + 1)) == - inject_Z (Qfloor x) - 1)%Q as Hi.
    { rewrite inject_Z_opp, inject_Z_plus. change (inject_Z 1) with 1%Q. lra. }
    destruct (Qcompare (x - inject_Z (Qfloor x)) (1 # 2)) eqn:C;
      destruct (Qcompare (- x - inject_Z (- (Qfloor x + 1))) (1 # 2)) eqn:C';
      compared; try (exfalso; lra).
    + rewrite Z.even_opp, Z.even_add. simpl.
      destruct (Z.even (Qfloor x)); simpl; lia.
    + lia.
    + lia.
Qed.

Lemma binary64_opp (q : Q) : (Py.binary64 (- q) == - Py.binary64 q)%Q.
Proof.
  unfold Py.binary64.
  assert (Qeq_bool (- q) 0 = Qeq_bool q 0) as ->.
  { destruct (Qeq_bool q 0) eqn:E.
    - apply Qeq_bool_iff. apply Qeq_bool_iff in E. lra.
    - destruct (Qeq_bool (- q) 0) eqn:E'; [|done].
      apply Qeq_bool_iff in E'.
      assert (q == 0)%Q as H by lra.
      apply Qeq_bool_iff in H. congruence. }
  destruct (Qeq_bool q 0); [done|].
  rewrite (ilog2_proper (Qabs (- q)) (Qabs q)) by apply Qabs_opp.
  set (e := Z.max _ _). unfold Py.round_at.
  rewrite (round_half_even_proper (- q / 2 ^ e) (- (q / 2 ^ e))).
  - rewrite round_half_even_opp, inject_Z_opp. lra.
  - pose proof (pow2_pos e). field. lra.
Qed.

(** Rounding to a [float] keeps the order. *)
Lemma binary64_le (a b : Q) :
  (a <= b)%Q -> (Py.binary64 a <= Py.binary64 b)%Q.
Proof.
  intros Hab. destruct (Qlt_le_dec a 0) as [Ha|Ha].
  - destruct (Qlt_le_dec b 0) as [Hb|Hb].
    + pose proof (binary64_mono (- b) (- a) ltac:(lra) ltac:(lra)) as H.
      rewrite !binary64_opp in H. lra.
    + pose proof (binary64_nonpos a ltac:(lra)).
      pose proof (binary64_nonneg b Hb). lra.
  - by apply binary64_mono.
Qed.

(** The integers between [-2^53] and [2^53] are [float]s. *)
Lemma binary64_int (n : Z) :
  - 2 ^ 53 <= n <= 2 ^ 53 -> (Py.binary64 (inject_Z n) == inject_Z n)%Q.
Proof.
  intros Hn. destruct (Z.le_gt_cases 0 n) as [H|H].
  - apply binary64_Z. lia.
  - pose proof (binary64_Z (- n) ltac:(lia)) as Hp.
    rewrite inject_Z_opp, binary64_opp in Hp. lra.
Qed.

Lemma int_floor (q : Q) : (0 <= q)%Q -> Py.int q = Qfloor q.
Proof.
  destruct q as [n d]. unfold Qle, Py.int. simpl. intros H.
  apply Z.quot_div_nonneg; lia.
Qed.

Lemma int_ceiling (q : Q) : (q <= 0)%Q -> Py.int q = Qceiling q.
Proof.
  destruct q as [n d]. unfold Qle, Py.int, Qceiling. simpl. intros H.
  replace n with (- - n) at 1 by lia.
  rewrite Z.quot_opp_l by lia. rewrite Z.quot_div_nonneg by lia. done.
Qed.

End signs.

Section products.

(** [n * x] for a progress value [x] in [0, 1]: the product lies between
    0 and [n], and between the integers next to the exact product. *)
Lemma mul_int_float_bounds (n : Z) (x : Q) :
  0 <= n <= 2 ^ 53 -> (0 <= x <= 1)%Q ->
  (0 <= Py.mul_int_float n x <= inject_Z n)%Q /\
  (inject_Z (Qfloor (inject_Z n * x)) <= Py.mul_int_float n x
   <= inject_Z (Qfloor (inject_Z n * x) + 1))%Q.
Proof.
  intros Hn [H0 H1]. unfold Py.mul_int_float.
  pose proof (binary64_int n ltac:(lia)) as Hfl.
  assert (0 <= inject_Z n)%Q as Hq
    by (change 0%Q with (inject_Z 0); rewrite <- Zle_Qle; lia).
  rewrite (binary64_proper (Py.binary64 (inject_Z n) * x) (inject_Z n * x))
    by (by rewrite Hfl).
  set (q := (inject_Z n * x)%Q).
  assert (0 <= q <= inject_Z n)%Q as [Hq0 Hqn] by (unfold q; split; nra).
  pose proof (binary64_le _ _ Hqn) as Hup. rewrite Hfl in Hup.
  pose proof (binary64_nonneg q Hq0) as Hlo.
  split; [done|].
  pose proof (Qfloor_le q) as Hf. pose proof (Qlt_floor q) as Hf'.
  pose proof (Qfloor_resp_le _ _ Hq0) as Hf0. change (Qfloor 0) with 0 in Hf0.
  pose proof (Qfloor_resp_le _ _ Hqn) as Hfn. rewrite Qfloor_Z in Hfn.
  split.
  - rewrite <- (binary64_int (Qfloor q)) by lia. by apply binary64_le.
  - destruct (Z.eq_dec (Qfloor q) n) as [E|E].
    + rewrite E. apply Qle_trans with (inject_Z n); [done|].
      rewrite <- Zle_Qle. lia.
    + rewrite <- (binary64_int (Qfloor q + 1)) by lia.
      apply binary64_le. lra.
Qed.

Lemma mul_int_float_mono (n : Z) (x y : Q) :
  0 <= n -> (x <= y)%Q ->
  (Py.mul_int_float n x <= Py.mul_int_float n y)%Q.
Proof.
  intros Hn Hxy. unfold Py.mul_int_float. apply binary64_le.
  assert (0 <= Py.binary64 (inject_Z n))%Q.
  { apply binary64_nonneg. change 0%Q with (inject_Z 0).
    rewrite <- Zle_Qle. lia. }
  nra.
Qed.

Lemma mul_int_float_proper (n : Z) (x y : Q) :
  (x == y)%Q -> Py.mul_int_float n x = Py.mul_int_float n y.
Proof.
  intros H. unfold Py.mul_int_float. apply binary64_proper. by rewrite H.
Qed.

Lemma mul_int_float_1 (n : Z) :
  - 2 ^ 53 <= n <= 2 ^ 53 -> (Py.mul_int_float n 1 == inject_Z n)%Q.
Proof.
  intros Hn. unfold Py.mul_int_float.
  pose proof (binary64_int n Hn) as Hfl.
  rewrite (binary64_proper _ (inject_Z n)) by (rewrite Hfl; lra).
  done.
Qed.

Lemma mul_int_float_0 (n : Z) : Py.mul_int_float n 0 = 0%Q.
Proof.
  unfold Py.mul_int_float.
  by rewrite (binary64_proper _ 0) by lra.
Qed.

End products.

(* ===================================================================== *)
(** ** The bar                                                            *)
(* ===================================================================== *)

Section bar.

(** The number of ["#"] for a bar of width [bw] at progress [x].  On a bar
    with room, [int] is the floor of the rounded product, which lies
    between 0 and [bw] and is the floor of the exact product or one
    more. *)
Lemma bar_counts (bw : Z) (x : Q) :
  (0 <= x <= 1)%Q -> 0 <= bw <= 2 ^ 53 ->
  let n := Py.int (Py.mul_int_float bw x) in
  n = Qfloor (Py.mul_int_float bw x) /\
  0 <= n <= bw /\
  Qfloor (inject_Z bw * x) <= n <= Qfloor (inject_Z bw * x) + 1.
Proof.
  intros Hx Hbw n.
  destruct (mul_int_float_bounds bw x Hbw Hx) as [[H0 Hn] [Hlo Hhi]].
  assert (n = Qfloor (Py.mul_int_float bw x)) as E by (by apply int_floor).
  split; [done|]. rewrite E.
  pose proof (Qfloor_resp_le _ _ H0) as F0. change (Qfloor 0) with 0 in F0.
  pose proof (Qfloor_resp_le _ _ Hn) as Fn. rewrite Qfloor_Z in Fn.
  pose proof (Qfloor_resp_le _ _ Hlo) as Flo. rewrite Qfloor_Z in Flo.
  pose proof (Qfloor_resp_le _ _ Hhi) as Fhi. rewrite Qfloor_Z in Fhi.
  lia.
Qed.

(** A bar without room gets no character. *)
Lemma bar_empty (bw : Z) (x : Q) :
  (0 <= x <= 1)%Q -> - 2 ^ 53 <= bw < 0 ->
  bw <= Py.int (Py.mul_int_float bw x) <= 0 /\
  bw <= Qfloor (Py.mul_int_float bw x) <= 0.
Proof.
  intros [H0 H1] Hbw. unfold Py.mul_int_float.
  pose proof (binary64_int bw ltac:(lia)) as Hfl.
  assert (inject_Z bw < 0)%Q as Hq
    by (change 0%Q with (inject_Z 0); rewrite <- Zlt_Qlt; lia).
  rewrite (binary64_proper (Py.binary64 (inject_Z bw) * x) (inject_Z bw * x))
    by (by rewrite Hfl).
  set (q := (inject_Z bw * x)%Q).
  assert (inject_Z bw <= q <= 0)%Q as [Hlo Hhi] by (unfold q; split; nra).
  pose proof (binary64_le _ _ Hlo) as Hlo'. rewrite Hfl in Hlo'.
  pose proof (binary64_nonpos q Hhi) as Hhi'.
  rewrite int_ceiling by done.
  pose proof (Qceiling_resp_le _ _ Hlo') as C1. rewrite Qceiling_Z in C1.
  pose proof (Qceiling_resp_le _ _ Hhi') as C2.
  change (Qceiling 0) with 0 in C2.
  pose proof (Qfloor_resp_le _ _ Hlo') as F1. rewrite Qfloor_Z in F1.
  pose proof (Qfloor_resp_le _ _ Hhi') as F2. change (Qfloor 0) with 0 in F2.
  lia.
Qed.

Lemma bar_counts_text (bw : Z) (x : Q) (s : string) :
  (0 <= x <= 1)%Q -> - 2 ^ 53 <= bw <= 2 ^ 53 ->
  let n := Py.int (Py.mul_int_float bw x) in
  let f := Qfloor (Py.mul_int_float bw x) in
  Py.str_mul s n = Py.str_mul s f /\
  Py.str_mul s (bw - n) = Py.str_mul s (bw - f).
Proof.
  intros Hx Hbw n f.
  destruct (Z.le_gt_cases 0 bw) as [Hpos|Hneg].
  - destruct (bar_counts bw x Hx ltac:(lia)) as [Hnf _].
    fold n f in Hnf. by rewrite Hnf.
  - destruct (bar_empty bw x Hx ltac:(lia)) as [Hn Hf].
    fold n in Hn. fold f in Hf.
    by rewrite !str_mul_nonpos by lia.
Qed.

Lemma load_at pr x w :
  heap w !! pr = Some [x] -> load pr 0 w = (Ok x, w).
Proof. intros H. unfold load. by rewrite H. Qed.

End bar.

(** C3: the bar built for terminal width [width] and message [message] (the
    message left by the width guard) has [bar_width = width - len(message)
    - 11].  At progress [x] in [0, 1] its [[]] returns the message, ["["],
    [filled] times ["#"], [bar_width - filled] spaces and ["] "], where
    [filled] is the floor of the product [bar_width * x] as Python
    computes it: rounded to the nearest [float].  On a bar with room
    [filled] lies between 0 and [bar_width] and is the floor of the exact
    product or one more.  For width 80, an empty message and progress 0.5
    the result is ["["], 34 times ["#"], 35 spaces and ["] "]. *)
Theorem bar_rendering
        (progress : loc) (message : string) (width : Z) (x : Q) (w : world) :
  (0 <= x <= 1)%Q ->
  heap w !! progress = Some [x] ->
  let bar := _bar.__init__ progress message width in
  let bar_width := width - Py.len message - 11 in
  let filled := Qfloor (Py.mul_int_float bar_width x) in
  - 2 ^ 53 <= bar_width <= 2 ^ 53 ->
  _bar.w bar = bar_width /\
  (0 <= bar_width ->
   Py.int (Py.mul_int_float bar_width x) = filled /\
   0 <= filled <= bar_width /\
   Qfloor (inject_Z bar_width * x) <= filled
   <= Qfloor (inject_Z bar_width * x) + 1) /\
  _bar.__getitem__ bar w
  = (Ok (message +:+ "[" +:+ Py.str_mul "#" filled
                 +:+ Py.str_mul " " (bar_width - filled) +:+ "] "), w) /\
  _bar.__getitem__ (_bar.__init__ 0%nat "" 80) (World [] [[1 # 2]] [] (Some 80))
  = (Ok ("[" +:+ "##################################"
             +:+ "                                   " +:+ "] "),
     World [] [[1 # 2]] [] (Some 80)).
Proof.
  intros Hx Hload bar bar_width filled Hbw.
  split; [done|]. split; [|split].
  - intros Hpos.
    destruct (bar_counts bar_width x Hx ltac:(lia)) as (E & Hn & Hf).
    fold filled in E. rewrite E in Hn, Hf. by rewrite E.
  - unfold _bar.__getitem__. rewrite bind_at.
    change (_bar.p bar) with progress. rewrite (load_at _ _ _ Hload).
    unfold ret.
    change (_bar.w bar) with bar_width. change (_bar.m bar) with message.
    fold filled.
    destruct (bar_counts_text bar_width x "#" Hx Hbw) as [-> _].
    by destruct (bar_counts_text bar_width x " " Hx Hbw) as [_ ->].
  - by vm_compute.
Qed.

Lemma bar_rendering_witness :
  _bar.w (_bar.__init__ 0%nat "load " 30) = 14 /\
  (0 <= 14 ->
   Py.int (Py.mul_int_float 14 (1 # 4)) = 3 /\ 0 <= 3 <= 14 /\
   3 <= 3 <= 3 + 1) /\
  _bar.__getitem__ (_bar.__init__ 0%nat "load " 30)
                   (World [] [[1 # 4]] [] (Some 30))
  = (Ok "load [###           ] ", World [] [[1 # 4]] [] (Some 30)) /\
  _bar.__getitem__ (_bar.__init__ 0%nat "" 80) (World [] [[1 # 2]] [] (Some 80))
  = (Ok ("[" +:+ "##################################"
             +:+ "                                   " +:+ "] "),
     World [] [[1 # 2]] [] (Some 80)).
Proof.
  apply (bar_rendering 0%nat "load " 30 (1 # 4) (World [] [[1 # 4]] [] (Some 30)));
    [split; discriminate | reflexivity | by vm_compute].
Defined.

(** C3 as stated fails: [filled] is not always the floor of the exact
    product.  The [float] nearest to 1/3 lies below 1/3, so that 69 times it lies
    below 23; the product Python computes is rounded to 23.0.  On a
    terminal of 80 columns the bar then has 23 ["#"], whereas the floor of
    [bar_width * p] is 22. *)
Theorem bar_count_exceeds_floor :
  let third := 6004799503160661 # 18014398509481984 in
  let w := World [] [[third]] [] (Some 80) in
  (0 <= third <= 1)%Q /\
  Py.binary64 third = third /\
  _bar.__getitem__ (_bar.__init__ 0%nat "" 80) w
  = (Ok ("[" +:+ Py.str_mul "#" 23 +:+ Py.str_mul " " 46 +:+ "] "), w) /\
  Qfloor (inject_Z (80 - Py.len "" - 11) * third) = 22.
Proof.
  intros third w. split; [split; discriminate|].
  split; [by vm_compute|]. split; by vm_compute.
Qed.

(* ===================================================================== *)
(** ** Percentage                                                         *)
(* ===================================================================== *)

Section percentage.

Import ProgressIndicator.

Lemma getitem_text message pr x w :
  heap w !! pr = Some [x] ->
  match message with
  | MsgList l => exists m, l = [m]
  | MsgBar b => _bar.p b = pr
  end ->
  getitem message 0 w = (Ok (message_text message x), w).
Proof.
  intros Hx Hm. destruct message as [l|b]; simpl.
  - by destruct Hm as [m ->].
  - unfold _bar.__getitem__. rewrite bind_at, Hm, (load_at _ _ _ Hx).
    reflexivity.
Qed.

Lemma perc_next message pr x w :
  heap w !! pr = Some [x] ->
  match message with
  | MsgList l => exists m, l = [m]
  | MsgBar b => _bar.p b = pr
  end ->
  next (Percentage._perc pr message) w
  = (Ok (perc_frame message x, Percentage._perc pr message), w).
Proof.
  intros Hx Hm. unfold next. simpl. unfold read.
  rewrite bind_at, (getitem_text _ _ _ _ Hx Hm).
  rewrite bind_at, (load_at _ _ _ Hx). reflexivity.
Qed.

Lemma indicator_eta (i : t) :
  Indicator (_animator i) (_delay i) (_thread i) (_enabled i) = i.
Proof. by destruct i. Qed.

Lemma percentage_eta (self : Percentage.t) :
  Percentage.with_indicator self (Percentage._indicator self) = self.
Proof. by destruct self. Qed.

Lemma show_percentage self w x :
  well_formed self w ->
  heap w !! Percentage._progress self = Some [x] ->
  show (Percentage._indicator self) w
  = (Ok (Percentage._indicator self),
     printed w [Write (" " +:+ perc_frame (Percentage._message self) x +:+ CR);
                Flush]).
Proof.
  intros (_ & Hgen & Hmsg & _) Hx.
  pose proof (perc_next _ _ _ _ Hx Hmsg) as Hn. rewrite <- Hgen in Hn at 1.
  rewrite (show_ok _ _ _ _ Hn). unfold advanced. rewrite <- Hgen.
  by rewrite indicator_eta.
Qed.

Lemma well_formed_printed self w evs :
  well_formed self w -> well_formed self (printed w evs).
Proof. done. Qed.

End percentage.

Section percentage_construction.

Import ProgressIndicator.

Lemma Percentage_init_eq delay message percentage
      (use_bar use_delayed_output keep_output : bool) w :
  Percentage.__init__ delay message percentage use_bar
                      use_delayed_output keep_output w
  = let progress := length (heap w) in
    let w1 := World (stdout w) (heap w ++ [[percentage]]) (threads w)
                    (terminal w) in
    match terminal w with
    | None => (Raise OSError, w1)
    | Some width =>
        let narrow := width <? Py.len message + (if use_bar then 12 else 8) in
        let m := guarded narrow message in
        let msg := if use_bar
                   then MsgBar (_bar.__init__ progress m width)
                   else MsgList [m] in
        if Py.gt0 delay
        then (Ok (Percentage.Make use_delayed_output keep_output progress msg
                    (Indicator (Percentage._perc progress msg) delay None false)),
              guard_output narrow message w1)
        else (Raise AssertionError, guard_output narrow message w1)
    end.
Proof.
  unfold Percentage.__init__. rewrite bind_at. unfold alloc.
  rewrite bind_at. unfold get_terminal_size_columns. simpl terminal.
  destruct (terminal w) as [width|]; [|done].
  cbv zeta. rewrite bind_at.
  destruct use_bar; rewrite bind_at, guard_eq; unfold ret at 1;
    rewrite bind_at, init_eq; by destruct (Py.gt0 delay).
Qed.

Lemma well_formed_init delay message percentage
      (use_bar use_delayed_output keep_output : bool) w self w' :
  alive w = 0%nat ->
  Percentage.__init__ delay message percentage use_bar
                      use_delayed_output keep_output w = (Ok self, w') ->
  well_formed self w'.
Proof.
  intros Hw. rewrite Percentage_init_eq.
  destruct (terminal w) as [width|]; [|done]. cbv zeta.
  destruct (Py.gt0 delay); [|done]. intros [= <- <-].
  pose proof (proj1 (live_none _) Hw) as Hnone.
  assert (forall b m w1, heap (guard_output b m w1) = heap w1) as Hheap
    by (by intros [] m w1).
  assert (forall b m w1, threads (guard_output b m w1) = threads w1) as Hthr
    by (by intros [] m w1).
  split.
  { exists percentage. simpl. rewrite Hheap. simpl.
    by rewrite lookup_app_r, Nat.sub_diag. }
  split; [done|]. split; [by destruct use_bar; [|eexists]|].
  split; [|by split].
  split.
  - intros _ i. rewrite Hthr. apply Hnone.
  - intros i. rewrite Hthr. intros Hi. by destruct (Hnone i).
Qed.

(** In bar mode the constructor builds the bar from the message the width
    guard left and from the terminal width. *)
Lemma Percentage_bar_message delay message percentage
      (use_delayed_output keep_output : bool) w width self w' :
  terminal w = Some width ->
  Percentage.__init__ delay message percentage true
                      use_delayed_output keep_output w = (Ok self, w') ->
  Percentage._message self
  = MsgBar (_bar.__init__ (length (heap w))
                          (guarded (width <? Py.len message + 12) message)
                          width).
Proof.
  intros Ht. rewrite Percentage_init_eq, Ht. cbv zeta.
  destruct (Py.gt0 delay); [|done]. by intros [= <- _].
Qed.

End percentage_construction.

(** Runs the part of a computation that is made of [ret], [raise] and
    writes. *)
Ltac run_st :=
  repeat (rewrite bind_at;
          unfold ret, raise, sys_stdout_write, sys_stdout_flush;
          cbv beta iota).

Section percentage_methods.

Import ProgressIndicator.

Lemma store_at pr x v w :
  heap w !! pr = Some [x] -> store pr 0 v w = (Ok tt, stored w pr v).
Proof. intros H. unfold store. rewrite H. by simpl. Qed.

Lemma stored_cell pr x v w :
  heap w !! pr = Some [x] -> heap (stored w pr v) !! pr = Some [v].
Proof.
  intros H. simpl. apply list_lookup_insert_eq. by eapply lookup_lt_Some.
Qed.

Lemma well_formed_stored self w v :
  well_formed self w -> well_formed self (stored w (Percentage._progress self) v).
Proof.
  intros ([x Hx] & Hgen & Hmsg & Hown & Hoff & Hon).
  split; [|done]. exists v. by eapply stored_cell.
Qed.

(** Only the output and the thread table differ. *)
Lemma well_formed_threads self w w' :
  well_formed self w ->
  heap w' = heap w ->
  owns_threads (Percentage._indicator self) w' ->
  (_enabled (Percentage._indicator self) = true ->
   exists th, _thread (Percentage._indicator self) = Some th /\
              threads w' !! th = Some true) ->
  well_formed self w'.
Proof.
  intros (Hx & Hgen & Hmsg & _ & Hoff & _) Hheap Hown Hon.
  unfold well_formed. by rewrite Hheap.
Qed.

Lemma set_progress_eq self w v :
  well_formed self w ->
  Percentage.set_progress self v w
  = (Ok self,
     printed (stored w (Percentage._progress self) v)
             (if _enabled (Percentage._indicator self) then []
              else [Write (" " +:+ perc_frame (Percentage._message self) v +:+ CR);
                    Flush])).
Proof.
  intros Hwf. pose proof Hwf as ([x Hx] & _).
  unfold Percentage.set_progress.
  rewrite bind_at, (store_at _ _ _ _ Hx), bind_at.
  destruct (_enabled (Percentage._indicator self)); cbn [negb].
  - unfold ret. cbv beta iota. rewrite percentage_eta.
    unfold printed. by rewrite app_nil_r.
  - rewrite (show_percentage self _ v).
    + unfold ret. by rewrite percentage_eta.
    + by apply well_formed_stored.
    + by eapply stored_cell.
Qed.

Lemma stop_running i w th :
  _enabled i = true -> _thread i = Some th -> threads w !! th = Some true ->
  stop i w
  = (Ok (stopped i),
     World (stdout w ++ [Write ESC_K]) (heap w) (<[th := false]> (threads w))
           (terminal w)).
Proof.
  intros En Th A. unfold stop, stopped. rewrite En, Th, !bind_at.
  unfold thread_is_alive. rewrite A. reflexivity.
Qed.

Lemma stop_idle i w : _enabled i = false -> stop i w = (Ok i, w).
Proof. intros En. unfold stop. by rewrite En. Qed.

Lemma stop_unthreaded self w :
  Percentage._use_thread self = false ->
  Percentage.stop self w
  = (Ok self,
     printed w ((if Percentage._keep_output self then [Write NL] else [])
                ++ [Write ESC_K])).
Proof.
  intros Ut. unfold Percentage.stop. rewrite Ut.
  destruct (Percentage._keep_output self); run_st; simpl;
    rewrite percentage_eta; unfold printed; simpl;
    [by rewrite <- List.app_assoc | done].
Qed.

Lemma stop_threaded_idle self w x :
  well_formed self w ->
  heap w !! Percentage._progress self = Some [x] ->
  Percentage._use_thread self = true ->
  _enabled (Percentage._indicator self) = false ->
  Percentage.stop self w
  = (Ok self,
     printed w ([Write (" " +:+ perc_frame (Percentage._message self) x +:+ CR);
                 Flush]
                ++ (if Percentage._keep_output self then [Write NL] else []))).
Proof.
  intros Hwf Hx Ut En. unfold Percentage.stop.
  rewrite Ut, bind_at, (show_percentage _ _ _ Hwf Hx).
  destruct (Percentage._keep_output self); run_st.
  - rewrite stop_idle by done. rewrite percentage_eta.
    unfold printed. simpl. by rewrite <- !List.app_assoc.
  - rewrite stop_idle by done. rewrite percentage_eta.
    unfold printed. simpl. by rewrite <- ?List.app_assoc, ?app_nil_r.
Qed.

Lemma stop_threaded_running self w x th :
  well_formed self w ->
  heap w !! Percentage._progress self = Some [x] ->
  Percentage._use_thread self = true ->
  _enabled (Percentage._indicator self) = true ->
  _thread (Percentage._indicator self) = Some th ->
  threads w !! th = Some true ->
  Percentage.stop self w
  = (Ok (Percentage.with_indicator self (stopped (Percentage._indicator self))),
     World (stdout w
            ++ [Write (" " +:+ perc_frame (Percentage._message self) x +:+ CR);
                Flush]
            ++ (if Percentage._keep_output self then [Write NL] else [])
            ++ [Write ESC_K])
           (heap w) (<[th := false]> (threads w)) (terminal w)).
Proof.
  intros Hwf Hx Ut En Th A. unfold Percentage.stop.
  rewrite Ut, bind_at, (show_percentage _ _ _ Hwf Hx).
  destruct (Percentage._keep_output self); run_st.
  - rewrite (stop_running _ _ th) by done.
    unfold printed. simpl. by rewrite <- !List.app_assoc.
  - rewrite (stop_running _ _ th) by done.
    unfold printed. simpl. by rewrite <- !List.app_assoc.
Qed.

End percentage_methods.

Section percentage_invariant.

Import ProgressIndicator.

Lemma well_formed_start self w :
  well_formed self w ->
  well_formed (after self (Percentage.start self w).1)
              (Percentage.start self w).2.
Proof.
  intros Hwf. pose proof Hwf as (Hx & Hgen & Hmsg & Hown & Hoff & Hon).
  unfold Percentage.start.
  destruct (Percentage._use_thread self) eqn:Ut; [|done].
  rewrite bind_at. unfold start.
  destruct (_enabled (Percentage._indicator self)) eqn:En; cbn [negb].
  - unfold ret. simpl. by rewrite percentage_eta.
  - rewrite bind_at. unfold thread_start, ret. simpl.
    pose proof (owns_threads_start _ _ Hown) as Hown'.
    unfold start in Hown'. rewrite En in Hown'. simpl in Hown'.
    split; [exact Hx|]. split; [exact Hgen|]. split; [exact Hmsg|].
    split; [exact Hown'|]. split; [simpl; by rewrite Ut|].
    intros _. exists (length (threads w)). split; [done|].
    simpl. by rewrite lookup_app_r, Nat.sub_diag.
Qed.

Lemma well_formed_stop self w :
  well_formed self w ->
  well_formed (after self (Percentage.stop self w).1)
              (Percentage.stop self w).2.
Proof.
  intros Hwf. pose proof Hwf as ([x Hx] & Hgen & Hmsg & Hown & Hoff & Hon).
  destruct (Percentage._use_thread self) eqn:Ut.
  - destruct (_enabled (Percentage._indicator self)) eqn:En.
    + destruct (Hon eq_refl) as (th & Th & A).
      rewrite (stop_threaded_running _ _ x th) by done. simpl.
      assert (forall i, <[th := false]> (threads w) !! i <> Some true) as Hnone.
      { intros i Hi. pose proof (exit_quietens _ _ _ Hi) as Hi'.
        destruct Hown as [_ Hown]. apply Hown in Hi'.
        rewrite Th in Hi'. injection Hi' as <-. by apply exit_kills in Hi. }
      split; [by exists x|]. split; [done|]. split; [done|].
      split; [|by split].
      split; simpl; [done|]. intros i Hi. by destruct (Hnone i).
    + by rewrite (stop_threaded_idle _ _ x).
  - by rewrite stop_unthreaded.
Qed.

Lemma well_formed_set_progress self w v :
  well_formed self w ->
  well_formed (after self (Percentage.set_progress self v w).1)
              (Percentage.set_progress self v w).2.
Proof.
  intros Hwf. rewrite set_progress_eq by done. simpl.
  by apply well_formed_printed, well_formed_stored.
Qed.

Lemma render_percentage self w th :
  well_formed self w ->
  exists evs exited,
    _render th (Percentage._indicator self) w
    = (Ok (Percentage._indicator self),
       World (stdout w ++ evs) (heap w)
             (if exited : bool then <[th := false]> (threads w) else threads w)
             (terminal w)) /\
    (exited = true -> _enabled (Percentage._indicator self) = false).
Proof.
  intros Hwf. pose proof Hwf as ([x Hx] & _).
  unfold _render. rewrite bind_at. unfold thread_is_alive.
  destruct (default false (threads w !! th)).
  - destruct (_enabled (Percentage._indicator self)) eqn:En.
    + unfold try_except. rewrite (show_percentage _ _ _ Hwf Hx).
      eexists _, false. split; [reflexivity | done].
    + exists [], true. split; [|done].
      rewrite bind_at. unfold thread_exit, ret. by rewrite app_nil_r.
  - exists [], false. split; [|done].
    unfold ret. rewrite app_nil_r. by destruct w.
Qed.

Lemma well_formed_turn self w th :
  well_formed self w ->
  well_formed (after self (PercentageUse.exec (PercentageUse.turn th) self w).1)
              (PercentageUse.exec (PercentageUse.turn th) self w).2.
Proof.
  intros Hwf. pose proof Hwf as (Hx & Hgen & Hmsg & Hown & Hoff & Hon).
  destruct (render_percentage self w th Hwf) as (evs & exited & Hr & Hex).
  simpl. rewrite bind_at, Hr. unfold ret. simpl. rewrite percentage_eta.
  destruct exited.
  - specialize (Hex eq_refl).
    apply (well_formed_threads self w); [done | done | | by rewrite Hex].
    by apply (owns_threads_exit _ w th).
  - by apply (well_formed_threads self w).
Qed.

Lemma reachable_well_formed self w :
  PercentageUse.reachable self w -> well_formed self w.
Proof.
  induction 1 as [delay message percentage ub ut ko w self w' Hw Hinit
                 | o self w _ IH].
  - by eapply well_formed_init.
  - destruct o.
    + by apply well_formed_start.
    + by apply well_formed_stop.
    + by apply well_formed_set_progress.
    + by apply well_formed_turn.
Qed.

(** The running flag tells whether a background thread is alive. *)
Lemma running_iff_alive self w :
  well_formed self w ->
  (_enabled (Percentage._indicator self) = true <-> alive w = 1%nat) /\
  (_enabled (Percentage._indicator self) = false <-> alive w = 0%nat).
Proof.
  intros (_ & _ & _ & Hown & _ & Hon).
  pose proof (owns_threads_alive _ _ Hown) as Hle.
  destruct (_enabled (Percentage._indicator self)) eqn:En.
  - destruct (Hon eq_refl) as (th & _ & A).
    assert (alive w <> 0%nat) as Hne.
    { intros H0. by destruct (proj1 (live_none _) H0 th). }
    split; split; intros; (done || lia).
  - destruct Hown as [Hnone _].
    assert (alive w = 0%nat) as H0 by (apply live_none; auto).
    split; split; intros; (done || lia).
Qed.

End percentage_invariant.

(** C6: [set_progress(v)] stores [v] in the shared progress list, and
    renders one frame in the caller's thread exactly when the running flag
    of the indicator is cleared, which is exactly when no background thread
    is alive (never started, stopped, or [use_delayed_output] false): the
    output grows by that frame and a flush, or not at all.  Without
    background thread, [set_progress(0.5)] followed by [stop()] writes the
    ["50.00%"] frame before the newline and the erase-line sequence. *)
Theorem set_progress_stores_and_renders
        (self : ProgressIndicator.Percentage.t) (w : world) (v : Q) :
  PercentageUse.reachable self w ->
  let running :=
    ProgressIndicator._enabled (ProgressIndicator.Percentage._indicator self) in
  let frame := perc_frame (ProgressIndicator.Percentage._message self) v in
  let w' := (ProgressIndicator.Percentage.set_progress self v w).2 in
  ProgressIndicator.Percentage.set_progress self v w
  = (Ok self,
     World (stdout w ++ (if running then []
                         else [Write (" " +:+ frame +:+ CR); Flush]))
           (<[ProgressIndicator.Percentage._progress self := [v]]> (heap w))
           (threads w) (terminal w)) /\
  load (ProgressIndicator.Percentage._progress self) 0 w' = (Ok v, w') /\
  (running = false <-> alive w = 0%nat) /\
  (ProgressIndicator.Percentage._use_thread self = false -> running = false) /\
  stdout
    ((do p <- ProgressIndicator.Percentage.__init__ 1 "" 0 false false true;
      do p <- ProgressIndicator.Percentage.start p;
      do p <- ProgressIndicator.Percentage.set_progress p (1 # 2);
      ProgressIndicator.Percentage.stop p) (World [] [] [] (Some 80))).2
  = [Write (" " +:+ " 50.00%" +:+ CR); Flush; Write NL; Write ESC_K].
Proof.
  intros Hreach running frame w'.
  pose proof (reachable_well_formed _ _ Hreach) as Hwf.
  pose proof Hwf as ([x Hx] & _ & _ & _ & Hoff & _).
  assert (ProgressIndicator.Percentage.set_progress self v w
          = (Ok self,
             World (stdout w ++ (if running then []
                                 else [Write (" " +:+ frame +:+ CR); Flush]))
                   (<[ProgressIndicator.Percentage._progress self := [v]]> (heap w))
                   (threads w) (terminal w))) as Heq
    by (by rewrite set_progress_eq).
  split; [exact Heq|]. split; [|split; [|split]].
  - unfold w'. rewrite Heq. apply load_at. simpl.
    apply list_lookup_insert_eq. by eapply lookup_lt_Some.
  - by apply running_iff_alive.
  - exact Hoff.
  - reflexivity.
Qed.

Lemma set_progress_stores_and_renders_witness :
  let p := ProgressIndicator.Percentage.Make false true 0%nat (MsgList ["load "])
             (ProgressIndicator.Indicator
                (ProgressIndicator.Percentage._perc 0%nat (MsgList ["load "]))
                1 None false) in
  ProgressIndicator.Percentage.set_progress p (1 # 4) (World [] [[0%Q]] [] (Some 80))
  = (Ok p, World [Write (" " +:+ "load  25.00%" +:+ CR); Flush] [[1 # 4]] []
                 (Some 80)).
Proof.
  intros p.
  assert (PercentageUse.reachable p (World [] [[0%Q]] [] (Some 80))) as Hreach.
  { by apply (PercentageUse.reach_new 1 "load " 0 false false true
                                      (World [] [] [] (Some 80))). }
  exact (proj1 (set_progress_stores_and_renders p _ (1 # 4) Hreach)).
Defined.

(** C1 (as the code has it): [stop()] of a [Percentage] renders a final
    frame only when the indicator was built with [use_delayed_output]
    true.  Then, started or not, [stop()] first renders one frame in the
    caller's thread, showing the current progress value, while the thread
    table is still untouched; the newline (with [keep_output]) and the
    erase-line sequence follow, the latter whenever the indicator was
    running, and afterwards no background thread is alive.  Built with
    [use_delayed_output] false, [stop()] renders no frame: it writes the
    newline (with [keep_output]) and the erase-line sequence only. *)
Theorem stop_renders_final_frame_when_threaded
        (self : ProgressIndicator.Percentage.t) (w : world) :
  PercentageUse.reachable self w ->
  exists x,
    load (ProgressIndicator.Percentage._progress self) 0 w = (Ok x, w) /\
    let frame := perc_frame (ProgressIndicator.Percentage._message self) x in
    let newline :=
      if ProgressIndicator.Percentage._keep_output self then [Write NL] else [] in
    let w' := (ProgressIndicator.Percentage.stop self w).2 in
    (ProgressIndicator.Percentage._use_thread self = true ->
     ProgressIndicator.show (ProgressIndicator.Percentage._indicator self) w
     = (Ok (ProgressIndicator.Percentage._indicator self),
        World (stdout w ++ [Write (" " +:+ frame +:+ CR); Flush])
              (heap w) (threads w) (terminal w)) /\
     (exists clear,
        stdout w'
        = stdout w ++ [Write (" " +:+ frame +:+ CR); Flush] ++ newline ++ clear /\
        (clear = [] \/ clear = [Write ESC_K]) /\
        (ProgressIndicator._enabled (ProgressIndicator.Percentage._indicator self)
         = true -> clear = [Write ESC_K])) /\
     alive w' = 0%nat) /\
    (ProgressIndicator.Percentage._use_thread self = false ->
     ProgressIndicator.Percentage.stop self w
     = (Ok self,
        World (stdout w ++ newline ++ [Write ESC_K])
              (heap w) (threads w) (terminal w))).
Proof.
  intros Hreach.
  pose proof (reachable_well_formed _ _ Hreach) as Hwf.
  pose proof Hwf as ([x Hx] & _ & _ & Hown & _ & Hon).
  exists x. split; [by apply load_at|]. intros frame newline w'. split.
  - intros Ut. split; [by rewrite (show_percentage _ _ x)|].
    pose proof (well_formed_stop _ _ Hwf) as Hwf'. fold w' in Hwf'.
    destruct (ProgressIndicator._enabled
                (ProgressIndicator.Percentage._indicator self)) eqn:En.
    + destruct (Hon eq_refl) as (th & Th & A).
      pose proof (stop_threaded_running _ _ x th Hwf Hx Ut En Th A) as Heq.
      split.
      * exists [Write ESC_K]. unfold w'. rewrite Heq. simpl. auto.
      * apply (running_iff_alive _ _ Hwf'). unfold w'. by rewrite Heq.
    + pose proof (stop_threaded_idle _ _ x Hwf Hx Ut En) as Heq.
      split.
      * exists []. unfold w'. rewrite Heq. simpl.
        rewrite app_nil_r. split; [done|]. split; [by left | done].
      * apply (running_iff_alive _ _ Hwf'). unfold w'. by rewrite Heq.
  - intros Ut. by rewrite stop_unthreaded.
Qed.

Lemma stop_renders_final_frame_when_threaded_witness :
  let p := ProgressIndicator.Percentage.Make true true 0%nat (MsgList ["load "])
             (ProgressIndicator.Indicator
                (ProgressIndicator.Percentage._perc 0%nat (MsgList ["load "]))
                1 None false) in
  exists x,
    load 0%nat 0 (World [] [[0%Q]] [] (Some 80))
    = (Ok x, World [] [[0%Q]] [] (Some 80)) /\
    ProgressIndicator.show (ProgressIndicator.Percentage._indicator p)
                           (World [] [[0%Q]] [] (Some 80))
    = (Ok (ProgressIndicator.Percentage._indicator p),
       World ([] ++ [Write (" " +:+ perc_frame (MsgList ["load "]) x +:+ CR); Flush])
             [[0%Q]] [] (Some 80)).
Proof.
  intros p.
  assert (PercentageUse.reachable p (World [] [[0%Q]] [] (Some 80))) as Hreach.
  { by apply (PercentageUse.reach_new 1 "load " 0 false true true
                                      (World [] [] [] (Some 80))). }
  destruct (stop_renders_final_frame_when_threaded p _ Hreach)
    as (x & Hload & Hthreaded & _).
  exists x. split; [exact Hload|]. exact (proj1 (Hthreaded eq_refl)).
Defined.

(** C1 as stated fails: an indicator built with [use_delayed_output] false
    writes, from its construction to the end of [stop()], the newline and
    the erase-line sequence and no frame at all. *)
Lemma stop_unthreaded_renders_no_frame :
  let out :=
    stdout
      ((do p <- ProgressIndicator.Percentage.__init__ 1 "" 0 false false true;
        ProgressIndicator.Percentage.stop p) (World [] [] [] (Some 80))).2 in
  out = [Write NL; Write ESC_K] /\
  ~ (exists frame, Write (" " +:+ frame +:+ CR) ∈ out).
Proof.
  split; [reflexivity|].
  intros [frame H]. vm_compute in H.
  apply elem_of_cons in H as [H|H]; [discriminate|].
  apply elem_of_cons in H as [H|H]; [discriminate|].
  by apply elem_of_nil in H.
Qed.

(** C2 at the failing input: an indicator built with [use_delayed_output]
    true and [keep_output] false, stopped without having been started,
    writes the frame of its progress value and nothing after it: the
    erase-line sequence is missing and the frame stays on the line. *)
Theorem stop_before_start_leaves_frame :
  let out :=
    stdout
      ((do p <- ProgressIndicator.Percentage.__init__ 1 "" 0 false true false;
        ProgressIndicator.Percentage.stop p) (World [] [] [] (Some 80))).2 in
  out = [Write (" " +:+ "  0.00%" +:+ CR); Flush] /\
  Write ESC_K ∉ out.
Proof.
  split; [reflexivity|].
  intros H. vm_compute in H.
  apply elem_of_cons in H as [H|H]; [discriminate|].
  apply elem_of_cons in H as [H|H]; [discriminate|].
  by apply elem_of_nil in H.
Qed.

(** C7 (as the code has it): the constructor of [ProgressIndicator] fails
    with an assertion exactly when [delay <= 0] and otherwise returns the
    idle indicator.  [Dots] fails with an assertion exactly when
    [len(dot) != len(blank)], or [num_dots <= 0], or, once the terminal
    width was read, [delay <= 0]: its last step is the constructor of
    [ProgressIndicator] with its own assertion.  With all three
    preconditions met and a terminal attached, [Dots] returns an indicator
    over the generator [dots()]. *)
Theorem construction_assertions
        (animator : generator) (delay : Q) (message dot blank : string)
        (num_dots : Z) (w : world) :
  ((ProgressIndicator.__init__ animator delay w).1 = Raise AssertionError <->
   (delay <= 0)%Q) /\
  ((0 < delay)%Q ->
   ProgressIndicator.__init__ animator delay w
   = (Ok (ProgressIndicator.Indicator animator delay None false), w)) /\
  ((ProgressIndicator.Dots delay message num_dots dot blank w).1
   = Raise AssertionError <->
   Py.len dot <> Py.len blank \/ num_dots <= 0 \/
   (terminal w <> None /\ (delay <= 0)%Q)) /\
  (forall columns,
     (0 < delay)%Q -> Py.len dot = Py.len blank -> 0 < num_dots ->
     terminal w = Some columns ->
     let narrow := columns <? num_dots + Py.len message + 1 in
     ProgressIndicator.Dots delay message num_dots dot blank w
     = (Ok (ProgressIndicator.Indicator
              (ProgressIndicator.dots (guarded narrow message) num_dots dot blank)
              delay None false),
        guard_output narrow message w)).
Proof.
  split; [|split; [|split]].
  - rewrite init_eq. destruct (Py.gt0 delay) eqn:G; simpl.
    + apply gt0_true in G. split; [done|]. intros H. by apply Qlt_not_le in G.
    + by apply gt0_false in G.
  - intros G. apply gt0_true in G. by rewrite init_eq, G.
  - rewrite Dots_eq.
    destruct (Z.eqb_spec (Py.len dot) (Py.len blank)) as [Hlen|Hlen]; simpl;
      [|by split; [left|]].
    destruct (Z.ltb_spec 0 num_dots) as [Hnd|Hnd]; simpl;
      [|by split; [right; left|]].
    destruct (terminal w) as [columns|]; simpl.
    + rewrite init_eq. destruct (Py.gt0 delay) eqn:G; simpl.
      * apply gt0_true in G. split; [done|].
        intros [?|[?|[_ H]]]; [done | lia | by apply Qlt_not_le in G].
      * apply gt0_false in G. split; [|done]. intros _. right; right. by split.
    + split; [done|]. intros [?|[?|[H _]]]; [done | lia | done].
  - intros columns G Hlen Hnd Ht narrow. rewrite Dots_eq, Ht.
    apply Z.eqb_eq in Hlen. apply Z.ltb_lt in Hnd. rewrite Hlen, Hnd. simpl.
    apply gt0_true in G. by rewrite init_eq, G.
Qed.

Lemma construction_assertions_witness :
  ProgressIndicator.__init__ (ProgressIndicator.spin "") (1 # 2) (World [] [] [] (Some 80))
  = (Ok (ProgressIndicator.Indicator (ProgressIndicator.spin "") (1 # 2) None false),
     World [] [] [] (Some 80)) /\
  ProgressIndicator.Dots (1 # 2) "wait" 3 "." " " (World [] [] [] (Some 80))
  = (Ok (ProgressIndicator.Indicator
           (ProgressIndicator.dots (guarded (80 <? 3 + Py.len "wait" + 1) "wait") 3 "." " ")
           (1 # 2) None false),
     guard_output (80 <? 3 + Py.len "wait" + 1) "wait" (World [] [] [] (Some 80))).
Proof.
  pose proof (construction_assertions (ProgressIndicator.spin "") (1 # 2)
                "wait" "." " " 3 (World [] [] [] (Some 80)))
    as (_ & Hinit & _ & Hdots).
  split.
  - apply Hinit. reflexivity.
  - apply (Hdots 80); reflexivity.
Defined.

(** C7 as stated fails for [Dots]: with [dot] and [blank] of equal length
    and [num_dots = 3], a delay of 0 makes [Dots] fail with an assertion. *)
Lemma Dots_zero_delay_asserts :
  ~ ((ProgressIndicator.Dots 0 "" 3 "." " " (World [] [] [] (Some 80))).1
     = Raise AssertionError <->
     Py.len "." <> Py.len " " \/ 3 <= 0).
Proof.
  intros [H _]. destruct (H eq_refl) as [Hlen|Hnd]; [by apply Hlen | lia].
Qed.

(** C8 (as the code has it): no preset falls back to a default width.
    Without a terminal the width query raises [OSError], and the
    construction of every preset passes it on to the caller: [Spinner]
    always, [Dots] once its own two assertions passed (it fails with an
    assertion otherwise), [Percentage] after it created its progress
    list.  No preset returns an object. *)
Theorem no_terminal_raises_OSError (w : world) :
  terminal w = None ->
  (forall delay message,
     ProgressIndicator.Spinner delay message w = (Raise OSError, w)) /\
  (forall delay message num_dots dot blank,
     Py.len dot = Py.len blank -> 0 < num_dots ->
     ProgressIndicator.Dots delay message num_dots dot blank w
     = (Raise OSError, w)) /\
  (forall delay message num_dots dot blank,
     exists e, (ProgressIndicator.Dots delay message num_dots dot blank w).1
               = Raise e) /\
  (forall delay message percentage use_bar use_delayed_output keep_output,
     (ProgressIndicator.Percentage.__init__ delay message percentage use_bar
        use_delayed_output keep_output w).1 = Raise OSError).
Proof.
  intros Ht. split; [|split; [|split]].
  - intros delay message. by rewrite Spinner_eq, Ht.
  - intros delay message num_dots dot blank Hlen Hnd. rewrite Dots_eq, Ht.
    apply Z.eqb_eq in Hlen. apply Z.ltb_lt in Hnd. by rewrite Hlen, Hnd.
  - intros delay message num_dots dot blank. rewrite Dots_eq, Ht.
    destruct (Py.len dot =? Py.len blank); simpl; [|by eexists].
    destruct (0 <? num_dots); simpl; by eexists.
  - intros delay message percentage ub ut ko.
    by rewrite Percentage_init_eq, Ht.
Qed.

Lemma no_terminal_raises_OSError_witness :
  ProgressIndicator.Spinner (1 # 10) "loading " (World [] [] [] None)
  = (Raise OSError, World [] [] [] None) /\
  (ProgressIndicator.Percentage.__init__ 1 "" 0 true true true
     (World [] [] [] None)).1 = Raise OSError.
Proof.
  pose proof (no_terminal_raises_OSError (World [] [] [] None) eq_refl)
    as (Hspin & _ & _ & Hperc).
  split; [apply Hspin | apply Hperc].
Defined.

(** C8 as stated fails: without a terminal, the construction of a spinner
    with default arguments ends with [OSError] and returns no object. *)
Lemma Spinner_without_terminal_raises :
  ProgressIndicator.Spinner (1 # 10) "" (World [] [] [] None)
  = (Raise OSError, World [] [] [] None) /\
  ~ (exists self w',
       ProgressIndicator.Spinner (1 # 10) "" (World [] [] [] None)
       = (Ok self, w')).
Proof.
  split; [reflexivity|]. intros (self & w' & H). discriminate H.
Qed.

(* ===================================================================== *)
(** ** clean_data                                                         *)
(* ===================================================================== *)

Section endswith.

Lemma endswith_cons c s e :
  Py.endswith s e = true -> Py.endswith (String c s) e = true.
Proof.
  unfold Py.endswith. simpl String.length.
  intros [Hle Heq]%andb_true_iff. apply Nat.leb_le in Hle.
  apply andb_true_iff. split; [apply Nat.leb_le; lia|].
  replace (S (String.length s) - String.length e)%nat
    with (S (String.length s - String.length e)) by lia.
  exact Heq.
Qed.

Lemma endswith_app a s e :
  Py.endswith s e = true -> Py.endswith (a +:+ s) e = true.
Proof.
  intros H. induction a as [|c a IH]; [done|].
  rewrite str_app_cons. by apply endswith_cons.
Qed.

Lemma endswith_join directory item e :
  Py.endswith item e = true ->
  Py.endswith (Py.path_join directory item) e = true.
Proof.
  intros H. unfold Py.path_join.
  destruct (Py.startswith item "/"); [done|].
  destruct (String.eqb directory "" || Py.endswith directory "/").
  - by apply endswith_app.
  - by do 2 apply endswith_app.
Qed.

End endswith.

Section removals.

Import cleanData.

Context (P : string -> Prop).

Lemma removes_only_quiet {A} (c : FS A) :
  (forall d, removed (c d).2 = removed d) -> removes_only P c.
Proof. intros H d. exists []. by rewrite H, app_nil_r. Qed.

Lemma removes_only_ret {A} (a : A) : removes_only P (ret a).
Proof. by apply removes_only_quiet. Qed.

Lemma removes_only_print2 a b : removes_only P (print2 a b).
Proof. by apply removes_only_quiet. Qed.

Lemma removes_only_print1 a : removes_only P (print1 a).
Proof. by apply removes_only_quiet. Qed.

Lemma removes_only_bind {A B} (c : FS A) (k : A -> FS B) :
  removes_only P c -> (forall a, removes_only P (k a)) ->
  removes_only P (bind c k).
Proof.
  intros Hc Hk d. rewrite bind_at.
  destruct (Hc d) as (new1 & H1 & F1). destruct (c d) as [[a|e|] d1]; simpl in *.
  - destruct (Hk a d1) as (new2 & H2 & F2). exists (new1 ++ new2).
    rewrite H2, H1, <- List.app_assoc. split; [done|]. by apply Forall_app.
  - by exists new1.
  - by exists new1.
Qed.

Lemma removes_only_try_except {A} (c : FS A) handled (h : exn -> FS A) :
  removes_only P c -> (forall e, removes_only P (h e)) ->
  removes_only P (try_except c handled h).
Proof.
  intros Hc Hh d. unfold try_except.
  destruct (Hc d) as (new1 & H1 & F1). destruct (c d) as [[a|e|] d1]; simpl in *.
  - by exists new1.
  - destruct (handled e); simpl; [|by exists new1].
    destruct (Hh e d1) as (new2 & H2 & F2). exists (new1 ++ new2).
    rewrite H2, H1, <- List.app_assoc. split; [done|]. by apply Forall_app.
  - by exists new1.
Qed.

Lemma removes_only_for_each {A} (l : list A) (body : A -> FS unit) :
  (forall x, removes_only P (body x)) -> removes_only P (for_each l body).
Proof.
  intros Hb. induction l as [|x l IH]; simpl.
  - apply removes_only_ret.
  - apply removes_only_bind; [apply Hb | by intros _].
Qed.

Lemma removes_only_listdir directory : removes_only P (try_listdir directory).
Proof.
  apply removes_only_try_except; [|intros; apply removes_only_ret].
  apply removes_only_bind; [|intros; apply removes_only_ret].
  apply removes_only_quiet. intros d. unfold os_listdir.
  by destruct (dirs d !! directory).
Qed.

Lemma removes_only_rmdir directory : removes_only P (os_rmdir directory).
Proof.
  apply removes_only_quiet. intros d. unfold os_rmdir.
  by destruct (dirs d !! directory) as [[|]|].
Qed.

Lemma removes_only_try_rmdir directory : removes_only P (try_rmdir directory).
Proof.
  apply removes_only_try_except; [|intros; apply removes_only_ret].
  apply removes_only_bind; [apply removes_only_rmdir|].
  intros; apply removes_only_ret.
Qed.

Lemma removes_only_remove directory item :
  P (Py.path_join directory item) -> removes_only P (os_remove directory item).
Proof.
  intros HP d. unfold os_remove.
  destruct (dirs d !! directory) as [files|]; simpl.
  - destruct (bool_decide (item ∈ files)); simpl.
    + destruct (locked d !! Py.path_join directory item); simpl.
      * exists []. by rewrite app_nil_r.
      * exists [Py.path_join directory item]. split; [done|]. by constructor.
    + exists []. by rewrite app_nil_r.
  - exists []. by rewrite app_nil_r.
Qed.

End removals.

(** Splits a computation of [clean_data] into its calls. *)
Ltac removal :=
  repeat first
    [ apply removes_only_ret
    | apply removes_only_print2
    | apply removes_only_print1
    | apply removes_only_listdir
    | apply removes_only_try_rmdir
    | apply removes_only_rmdir
    | apply removes_only_bind; [|intros ?]
    | apply removes_only_try_except; [|intros ?]
    | apply removes_only_for_each; intros ?
    | lazymatch goal with
      | |- removes_only _ (let _ := _ in _) => cbv zeta
      end
    | match goal with
      | |- removes_only _ (if ?b then _ else _) => destruct b eqn:?
      | |- removes_only _ (match ?x with _ => _ end) => destruct x eqn:?
      end ].

Section clean_data.

Import cleanData.

Lemma clean_data_selected (rki john_hopkins population hdf5 : bool) out_path :
  removes_only
    (fun path => Py.endswith path (if hdf5 then "h5" else "json") = true)
    (clean_data false rki john_hopkins population hdf5 out_path).
Proof.
  unfold clean_data. cbv beta zeta iota. removal;
    apply removes_only_remove, endswith_join;
    repeat match goal with
           | H : _ && _ = true |- _ => apply andb_true_iff in H as [? ?]
           end; done.
Qed.

Lemma clean_data_all (rki john_hopkins population hdf5 : bool) out_path :
  removes_only
    (fun path => Py.endswith path ".json" || Py.endswith path ".h5" = true)
    (clean_data true rki john_hopkins population hdf5 out_path).
Proof.
  unfold clean_data. cbv beta zeta iota. removal;
    apply removes_only_remove;
    match goal with
    | H : _ || _ = true |- _ => apply orb_true_iff in H as [H|H]
    end;
    apply orb_true_iff;
    first [left; by apply endswith_join | right; by apply endswith_join].
Qed.

End clean_data.

(** C9 (as the code has it): the flag [hdf5] selects the extension only
    where a category is selected.  Without [all_data], every path
    [clean_data] hands to [os.remove] ends in ["h5"] when [hdf5] is true
    and in ["json"] when it is false.  With [all_data], every removed path
    ends in [".json"] or [".h5"], and [hdf5] has no effect on the run at
    all. *)
Theorem clean_data_extension
        (all_data rki john_hopkins population hdf5 : bool) (out_path : string)
        (d : cleanData.disk) :
  exists new,
    cleanData.removed
      (cleanData.clean_data all_data rki john_hopkins population hdf5 out_path d).2
    = cleanData.removed d ++ new /\
    (all_data = false ->
     Forall (fun path =>
               Py.endswith path (if hdf5 then "h5" else "json") = true) new) /\
    (all_data = true ->
     Forall (fun path =>
               Py.endswith path ".json" || Py.endswith path ".h5" = true) new /\
     cleanData.clean_data true rki john_hopkins population hdf5 out_path d
     = cleanData.clean_data true rki john_hopkins population (negb hdf5) out_path d).
Proof.
  destruct all_data.
  - destruct (clean_data_all rki john_hopkins population hdf5 out_path d)
      as (new & Heq & Hall).
    exists new. split; [exact Heq|]. split; [done|]. intros _. by split.
  - destruct (clean_data_selected rki john_hopkins population hdf5 out_path d)
      as (new & Heq & Hall).
    exists new. split; [exact Heq|]. by split.
Qed.

Lemma clean_data_extension_witness :
  let d := cleanData.Disk
             {[ "out/Germany/" := ["cases_rki.json"; "cases_rki.h5"; "notes.txt"] ]}
             [] [] [] ∅ in
  exists new,
    cleanData.removed (cleanData.clean_data false true false false true "out" d).2
    = [] ++ new /\
    Forall (fun path => Py.endswith path "h5" = true) new.
Proof.
  intros d.
  destruct (clean_data_extension false true false false true "out" d)
    as (new & Heq & Hsel & _).
  exists new. split; [exact Heq | exact (Hsel eq_refl)].
Defined.

(** C9 as stated fails in the [all_data] branch: with [hdf5] false, a file
    ending in [".h5"] is removed. *)
Lemma clean_all_removes_h5_without_flag :
  let d := cleanData.Disk {[ "out/Germany/" := ["cases_rki.h5"] ]} [] [] [] ∅ in
  let removed :=
    cleanData.removed (cleanData.clean_data true false false false false "out" d).2 in
  removed = ["out/Germany/cases_rki.h5"] /\
  ~ Forall (fun path => Py.endswith path "json" = true) removed.
Proof.
  split; [by vm_compute|].
  intros H. vm_compute in H. by apply Forall_cons in H as [? _].
Qed.

Example clean_rki_json :
  let d := cleanData.Disk
             {[ "out/Germany/" := ["cases_rki.json"; "cases_rki.h5"; "all_jh.json"] ]}
             [] [] [] ∅ in
  let d' := (cleanData.clean_data false true false false false "out" d).2 in
  cleanData.removed d' = ["out/Germany/cases_rki.json"] /\
  cleanData.dirs d' !! "out/Germany/" = Some ["cases_rki.h5"; "all_jh.json"] /\
  cleanData.removed_dirs d' = [].
Proof. by vm_compute. Qed.

Example clean_all_removes_directory :
  let d := cleanData.Disk
             {[ "out/Germany/" := ["cases_rki.json"; "cases_rki.h5"] ]}
             [] [] [] ∅ in
  let d' := (cleanData.clean_data true false false false true "out" d).2 in
  cleanData.removed d' = ["out/Germany/cases_rki.json"; "out/Germany/cases_rki.h5"] /\
  cleanData.removed_dirs d' = ["out/Germany/"] /\
  cleanData.printed d'
  = ["Deleting file  out/Germany/cases_rki.json";
     "Deleting file  out/Germany/cases_rki.h5";
     "Deleting directory  out/Germany/"].
Proof. by vm_compute. Qed.
(* ===================================================================== *)
(** ** Further properties of the presets                                  *)
(* ===================================================================== *)

Section spinner.

Import ProgressIndicator.

Lemma spin_next message i w :
  (i <= 4)%nat ->
  next (Generator (list string) (drop i spin_symbols) (gen_body (spin message))) w
  = (Ok (message +:+ default "" (spin_symbols !! (i mod 4)%nat),
         Generator (list string) (drop (S (i mod 4)) spin_symbols)
                   (gen_body (spin message))), w).
Proof.
  intros Hi.
  destruct i as [|[|[|[|[|i]]]]]; [reflexivity..|lia].
Qed.

Lemma spin_frame_at message w k : forall i,
  (i <= 4)%nat ->
  frame_at k (Generator (list string) (drop i spin_symbols)
                        (gen_body (spin message))) w
  = Some (message +:+ default "" (spin_symbols !! ((i + k) mod 4)%nat)).
Proof.
  induction k as [|k IH]; intros i Hi.
  - rewrite (frame_at_0 _ _ _ _ (spin_next message i w Hi)).
    by rewrite Nat.add_0_r.
  - rewrite (frame_at_S _ _ _ _ _ (spin_next message i w Hi)).
    pose proof (Nat.mod_upper_bound i 4 ltac:(lia)) as Hb.
    rewrite IH by lia. do 4 f_equal.
    replace (S (i mod 4) + k)%nat with (i mod 4 + S k)%nat by lia.
    by rewrite Nat.Div0.add_mod_idemp_l.
Qed.

Lemma spin_symbol_len n :
  (n < 4)%nat -> Py.len (default "" (spin_symbols !! n)) = 1.
Proof. intros Hn. by destruct n as [|[|[|[|n]]]]; [..|lia]. Qed.

Lemma spin_frame_at_start message w k :
  frame_at k (spin message) w
  = Some (message +:+ default "" (spin_symbols !! (k mod 4)%nat)).
Proof. apply (spin_frame_at message w k 0). lia. Qed.

End spinner.

(** X1: the frames of [spin()] never end and repeat with period 4: call
    number [k] (counted from 0) yields the message followed by the symbol
    number [k mod 4] of ["|/-\\"]. *)
Theorem spin_frames_cycle (message : string) (w : world) (k : nat) :
  frame_at k (ProgressIndicator.spin message) w
  = Some (message +:+
          default "" (ProgressIndicator.spin_symbols !! (k mod 4)%nat)) /\
  frame_at (k + 4) (ProgressIndicator.spin message) w
  = frame_at k (ProgressIndicator.spin message) w.
Proof.
  rewrite !spin_frame_at_start. split; [done|].
  replace (k + 4)%nat with (k + 1 * 4)%nat by lia.
  by rewrite Nat.Div0.mod_add.
Qed.

(** X2: what [Spinner] returns on a terminal of [columns] columns.  When
    the message and the symbol do not fit ([columns < len(message) + 2]),
    the message is printed once as a line of its own and every frame is the
    bare symbol.  Otherwise nothing is printed, and every line [show()]
    writes (the space and the frame) is [len(message) + 2] characters wide,
    which fits the terminal. *)
Theorem Spinner_lines_fit
        (delay : Q) (message : string) (columns : Z) (w w' : world)
        (self : ProgressIndicator.t) (k : nat) (frame : string) :
  terminal w = Some columns ->
  ProgressIndicator.Spinner delay message w = (Ok self, w') ->
  frame_at k (ProgressIndicator._animator self) w' = Some frame ->
  if columns <? Py.len message + 2
  then w' = printed w [Write message; Write NL] /\ Py.len frame = 1
  else w' = w /\
       Py.len (" " +:+ frame) = Py.len message + 2 /\
       Py.len (" " +:+ frame) <= columns.
Proof.
  intros Ht. rewrite Spinner_eq, Ht. cbv zeta. rewrite init_eq.
  destruct (Py.gt0 delay); [|done]. intros [= <- <-].
  cbn [ProgressIndicator._animator].
  rewrite spin_frame_at_start.
  intros Hf. apply (inj Some) in Hf. subst frame.
  pose proof (spin_symbol_len (k mod 4) (Nat.mod_upper_bound k 4 ltac:(lia)))
    as Hs.
  destruct (Z.ltb_spec columns (Py.len message + 2)) as [Hn|Hn];
    unfold guarded, guard_output; cbv iota.
  - split; [done|]. by rewrite str_app_nil.
  - split; [done|]. rewrite !len_app, Hs.
    change (Py.len " ") with 1. lia.
Qed.

Lemma Spinner_lines_fit_witness :
  World [] [] [] (Some 80) = World [] [] [] (Some 80) /\
  Py.len (" " +:+ "wait /") = Py.len "wait " + 2 /\
  Py.len (" " +:+ "wait /") <= 80.
Proof.
  apply (Spinner_lines_fit (1 # 10) "wait " 80 (World [] [] [] (Some 80))
           (World [] [] [] (Some 80))
           (ProgressIndicator.Indicator (ProgressIndicator.spin "wait ")
                                        (1 # 10) None false)
           5 "wait /"); reflexivity.
Defined.

Section dots_lines.

Import ProgressIndicator.

Lemma dots_frame_at_start message num_dots dot blank w k :
  0 < num_dots ->
  frame_at k (dots message num_dots dot blank) w
  = Some (dots_frame message num_dots dot blank
                     (Z.of_nat k mod num_dots + 1)).
Proof.
  intros Hnd.
  etrans; [apply (dots_frame_at message num_dots dot blank w k 1); lia|].
  by replace (1 - 1 + Z.of_nat k) with (Z.of_nat k) by lia.
Qed.

End dots_lines.

(** C5: the frames of [Dots].  For [num_dots > 0], [delay > 0] and [dot],
    [blank] of equal length, on a terminal of [columns] columns, [Dots]
    returns an indicator whose frames never end and repeat with period
    [num_dots]: the frame of call number [k] (counted from 0) is the
    [n]-th frame of the cycle, [n = k mod num_dots + 1] in [1..num_dots],
    which is the message the width guard left, followed by [n] copies of
    [dot] and [num_dots - n] copies of [blank]; all frames have the same
    length.  The width guard leaves the message when
    [columns >= num_dots + len(message) + 1]; otherwise it prints the
    message once and leaves the empty string. *)
Theorem dots_frames_cycle
        (delay : Q) (message dot blank : string) (num_dots columns : Z)
        (w : world) (k : nat) :
  terminal w = Some columns ->
  Py.gt0 delay = true ->
  0 < num_dots ->
  Py.len dot = Py.len blank ->
  let narrow := columns <? num_dots + Py.len message + 1 in
  let shown := if narrow then "" else message in
  let n := Z.of_nat k mod num_dots + 1 in
  let frame := shown +:+ Py.str_mul dot n +:+ Py.str_mul blank (num_dots - n) in
  exists self,
    let w' := if narrow then printed w [Write message; Write NL] else w in
    ProgressIndicator.Dots delay message num_dots dot blank w = (Ok self, w') /\
    1 <= n <= num_dots /\
    frame_at k (ProgressIndicator._animator self) w' = Some frame /\
    frame_at (k + Z.to_nat num_dots) (ProgressIndicator._animator self) w'
    = Some frame /\
    Py.len frame = Py.len shown + num_dots * Py.len dot.
Proof.
  intros Ht Hdelay Hnd Heq narrow shown n frame.
  pose proof (Z.mod_pos_bound (Z.of_nat k) num_dots Hnd) as Hb.
  assert (1 <= n <= num_dots) as Hn by (unfold n; lia).
  eexists. cbv zeta. split; [|split; [done|split; [|split]]].
  - rewrite Dots_eq, Ht.
    rewrite (proj2 (Z.eqb_eq _ _) Heq), (proj2 (Z.ltb_lt _ _) Hnd).
    cbv zeta. cbn [negb]. rewrite init_eq, Hdelay.
    unfold guard_output. by fold narrow.
  - cbn [ProgressIndicator._animator].
    by rewrite dots_frame_at_start.
  - cbn [ProgressIndicator._animator].
    rewrite dots_frame_at_start by done.
    replace (Z.of_nat (k + Z.to_nat num_dots))
      with (Z.of_nat k + 1 * num_dots) by lia.
    by rewrite Z_mod_plus_full.
  - by apply dots_frame_len.
Qed.

Lemma dots_frames_cycle_witness :
  exists self,
    ProgressIndicator.Dots 1 "wait" 3 "." " " (World [] [] [] (Some 80))
    = (Ok self, World [] [] [] (Some 80)) /\
    1 <= 2 <= 3 /\
    frame_at 4 (ProgressIndicator._animator self) (World [] [] [] (Some 80))
    = Some "wait.. " /\
    frame_at 7 (ProgressIndicator._animator self) (World [] [] [] (Some 80))
    = Some "wait.. " /\
    Py.len "wait.. " = Py.len "wait" + 3 * Py.len ".".
Proof.
  apply (dots_frames_cycle 1 "wait" "." " " 3 80 (World [] [] [] (Some 80)) 4);
    [reflexivity | reflexivity | lia | reflexivity].
Defined.

(** C5 as stated fails: the frames do not always carry the message.  On a
    terminal of 7 columns, [Dots(message="wait")] prints the message once
    and its frames are the dots alone. *)
Theorem Dots_narrow_terminal_drops_message :
  let w := World [] [] [] (Some 7) in
  exists self w',
    ProgressIndicator.Dots 1 "wait" 3 "." " " w = (Ok self, w') /\
    stdout w' = [Write "wait"; Write NL] /\
    frame_at 0 (ProgressIndicator._animator self) w' = Some ".  " /\
    ".  " <> "wait" +:+ Py.str_mul "." 1 +:+ Py.str_mul " " (3 - 1).
Proof.
  intros w. eexists _, _. split; [reflexivity|].
  split; [reflexivity|]. split; [reflexivity|]. by vm_compute.
Qed.

(** X3: what [Dots] returns on a terminal of [columns] columns.  When
    [columns < num_dots + len(message) + 1] the message is printed once as
    a line of its own and the frames carry no message.  Otherwise nothing
    is printed.  Every line [show()] writes is as wide as the space, the
    message that is left and [num_dots] times [dot]; so the guard keeps the
    line within the terminal when [dot] is at most one character wide. *)
Theorem Dots_lines_fit
        (delay : Q) (message dot blank : string) (num_dots columns : Z)
        (w w' : world) (self : ProgressIndicator.t) (k : nat) (frame : string) :
  terminal w = Some columns ->
  ProgressIndicator.Dots delay message num_dots dot blank w = (Ok self, w') ->
  frame_at k (ProgressIndicator._animator self) w' = Some frame ->
  if columns <? num_dots + Py.len message + 1
  then w' = printed w [Write message; Write NL] /\
       Py.len (" " +:+ frame) = 1 + num_dots * Py.len dot
  else w' = w /\
       Py.len (" " +:+ frame) = 1 + Py.len message + num_dots * Py.len dot /\
       (Py.len dot <= 1 -> Py.len (" " +:+ frame) <= columns).
Proof.
  intros Ht. rewrite Dots_eq, Ht.
  destruct (Z.eqb_spec (Py.len dot) (Py.len blank)) as [Hlen|]; [|done].
  destruct (Z.ltb_spec 0 num_dots) as [Hnd|]; [|done].
  cbv zeta. cbn [negb]. rewrite init_eq.
  destruct (Py.gt0 delay); [|done]. intros Hok.
  injection Hok as <- <-.
  cbn [ProgressIndicator._animator].
  rewrite dots_frame_at_start by done.
  intros Hf. apply (inj Some) in Hf. subst frame.
  pose proof (Z.mod_pos_bound (Z.of_nat k) num_dots Hnd) as Hb.
  rewrite len_app, dots_frame_len by (done || lia).
  change (Py.len " ") with 1.
  destruct (Z.ltb_spec columns (num_dots + Py.len message + 1)) as [Hn|Hn];
    unfold guarded, guard_output; cbv iota.
  - split; [done|]. change (Py.len "") with 0. lia.
  - split; [done|]. split; [lia|]. intros Hdot.
    assert (0 <= Py.len dot) by (unfold Py.len; lia). nia.
Qed.

Lemma Dots_lines_fit_witness :
  World [] [] [] (Some 80) = World [] [] [] (Some 80) /\
  Py.len (" " +:+ "wait.. ") = 1 + Py.len "wait" + 3 * Py.len "." /\
  (Py.len "." <= 1 -> Py.len (" " +:+ "wait.. ") <= 80).
Proof.
  apply (Dots_lines_fit 1 "wait" "." " " 3 80 (World [] [] [] (Some 80))
           (World [] [] [] (Some 80))
           (ProgressIndicator.Indicator
              (ProgressIndicator.dots "wait" 3 "." " ") 1 None false)
           4 "wait.. "); reflexivity.
Defined.

(* ===================================================================== *)
(** ** Rendering over time                                                *)
(* ===================================================================== *)

Section rendering.

Import ProgressIndicator.

Lemma reads_heap_only_next g w s g' :
  reads_heap_only g -> next g w = (Ok (s, g'), w) -> reads_heap_only g'.
Proof.
  intros Hg. unfold next.
  destruct (gen_body g (gen_cur g) w) as [r| |]; [|done..].
  intros [= _ <-]. exact Hg.
Qed.

Lemma next_same_heap g w1 w2 :
  reads_heap_only g -> heap w1 = heap w2 ->
  (next g w1).1 = (next g w2).1.
Proof.
  intros Hg Hh. unfold next. rewrite (Hg _ w1 w2 Hh).
  by destruct (gen_body g (gen_cur g) w2).
Qed.

Lemma next_ok_inv g w r w' : next g w = (Ok r, w') -> w' = w.
Proof. intros H. pose proof (next_world g w) as Hw. by rewrite H in Hw. Qed.

Lemma take_frames_same_heap n : forall g w1 w2,
  reads_heap_only g -> heap w1 = heap w2 ->
  take_frames n g w1 = take_frames n g w2.
Proof.
  induction n as [|n IH]; intros g w1 w2 Hg Hh; [done|]. simpl.
  pose proof (next_same_heap g w1 w2 Hg Hh) as Hn.
  destruct (next g w1) as [[[s g1]|e|] w1'] eqn:E1;
    destruct (next g w2) as [[[s' g2]|e'|] w2'] eqn:E2;
    simpl in Hn; try done.
  injection Hn as <- <-.
  pose proof (next_ok_inv _ _ _ _ E1) as ->.
  pose proof (next_ok_inv _ _ _ _ E2) as ->.
  f_equal. apply IH; [|done]. by eapply reads_heap_only_next.
Qed.

(** The first step of a run that yields [S n] frames. *)
Lemma take_frames_S n g w frames :
  take_frames (S n) g w = frames -> length frames = S n ->
  exists f g' rest,
    next g w = (Ok (f, g'), w) /\ frames = f :: rest /\
    take_frames n g' w = rest /\ length rest = n.
Proof.
  simpl. destruct (next g w) as [[[f g']|e|] w'] eqn:E;
    intros <-; [|done..]. intros [= Hl].
  pose proof (next_ok_inv _ _ _ _ E) as ->. by exists f, g', (take_frames n g' w).
Qed.

Lemma advanced_advanced self g1 g2 :
  advanced (advanced self g1) g2 = advanced self g2.
Proof. done. Qed.

Lemma printed_printed w evs1 evs2 :
  printed (printed w evs1) evs2 = printed w (evs1 ++ evs2).
Proof. unfold printed. simpl. by rewrite <- List.app_assoc. Qed.

Lemma shows_render n : forall self w frames,
  reads_heap_only (_animator self) ->
  take_frames n (_animator self) w = frames -> length frames = n ->
  exists g,
    shows n self w = (Ok (advanced self g), printed w (rendered frames)) /\
    reads_heap_only g.
Proof.
  induction n as [|n IH]; intros self w frames Hg Hf Hl.
  - destruct frames; [|done]. exists (_animator self). split; [|done].
    simpl. unfold ret, printed, advanced. rewrite app_nil_r.
    by destruct self, w.
  - destruct (take_frames_S _ _ _ _ Hf Hl) as (f & g1 & rest & Hn & -> & Hr & Hlr).
    pose proof (reads_heap_only_next _ _ _ _ Hg Hn) as Hg1.
    destruct (IH (advanced self g1)
                 (printed w [Write (" " +:+ f +:+ CR); Flush]) rest Hg1)
      as (g & Hs & Hgg); [|done|].
    { rewrite <- Hr. by apply take_frames_same_heap. }
    exists g. split; [|done].
    cbn [shows]. rewrite bind_at, (show_ok _ _ _ _ Hn), Hs.
    by rewrite advanced_advanced, printed_printed.
Qed.

Lemma turns_render n : forall self w th frames,
  reads_heap_only (_animator self) ->
  _enabled self = true -> threads w !! th = Some true ->
  take_frames n (_animator self) w = frames -> length frames = n ->
  exists g,
    turns n th self w = (Ok (advanced self g), printed w (rendered frames)) /\
    reads_heap_only g.
Proof.
  induction n as [|n IH]; intros self w th frames Hg En A Hf Hl.
  - destruct frames; [|done]. exists (_animator self). split; [|done].
    simpl. unfold ret, printed, advanced. rewrite app_nil_r.
    by destruct self, w.
  - destruct (take_frames_S _ _ _ _ Hf Hl) as (f & g1 & rest & Hn & -> & Hr & Hlr).
    pose proof (reads_heap_only_next _ _ _ _ Hg Hn) as Hg1.
    destruct (IH (advanced self g1)
                 (printed w [Write (" " +:+ f +:+ CR); Flush]) th rest Hg1)
      as (g & Hs & Hgg); [done|done| |done|].
    { rewrite <- Hr. by apply take_frames_same_heap. }
    exists g. split; [|done].
    cbn [turns]. rewrite bind_at. unfold _render at 1.
    rewrite bind_at. unfold thread_is_alive. rewrite A. cbn [default id].
    rewrite En. unfold try_except. rewrite (show_ok _ _ _ _ Hn), Hs.
    by rewrite advanced_advanced, printed_printed.
Qed.

End rendering.

(** X4: [n] calls of [show()] in a row write the first [n] frames of the
    animator, in order, each as one line start and one flush, and leave
    everything else as it was.  The animator must yield [n] frames and
    compute them from the heap alone (as [spin], [dots] and [_perc] do). *)
Theorem shows_write_frames_in_order
        (self : ProgressIndicator.t) (w : world) (n : nat) (frames : list string) :
  reads_heap_only (ProgressIndicator._animator self) ->
  take_frames n (ProgressIndicator._animator self) w = frames ->
  length frames = n ->
  exists g,
    shows n self w
    = (Ok (ProgressIndicator.advanced self g),
       World (stdout w ++ rendered frames) (heap w) (threads w) (terminal w)).
Proof.
  intros Hg Hf Hl. destruct (shows_render n self w frames Hg Hf Hl) as (g & H & _).
  by exists g.
Qed.

Lemma shows_write_frames_in_order_witness :
  exists g,
    shows 3 (ProgressIndicator.Indicator (ProgressIndicator.spin "go ") 1 None false)
          (World [] [] [] (Some 80))
    = (Ok (ProgressIndicator.advanced
             (ProgressIndicator.Indicator (ProgressIndicator.spin "go ") 1 None false) g),
       World ([] ++ rendered ["go |"; "go /"; "go -"]) [] [] (Some 80)).
Proof.
  apply (shows_write_frames_in_order
           (ProgressIndicator.Indicator (ProgressIndicator.spin "go ") 1 None false)
           (World [] [] [] (Some 80)) 3 ["go |"; "go /"; "go -"]);
    [by intros st w1 w2 _ | reflexivity | reflexivity].
Defined.

(** X5: the scoped use [with indicator: ...] of an idle indicator, when
    the background thread takes [n] turns before the block is left: the
    output is the first [n] frames of the animator, in order, followed by
    the erase-line sequence; afterwards the running flag is cleared and the
    thread that was started is no longer alive. *)
Theorem with_block_renders_then_clears
        (self : ProgressIndicator.t) (w : world) (n : nat) (frames : list string) :
  reads_heap_only (ProgressIndicator._animator self) ->
  ProgressIndicator._enabled self = false ->
  take_frames n (ProgressIndicator._animator self) w = frames ->
  length frames = n ->
  exists g,
    (do s <- ProgressIndicator.__enter__ self;
     do s <- turns n (length (threads w)) s;
     ProgressIndicator.__exit__ s) w
    = (Ok (ProgressIndicator.Indicator g (ProgressIndicator._delay self)
                                       (Some (length (threads w))) false),
       World (stdout w ++ rendered frames ++ [Write ESC_K]) (heap w)
             (threads w ++ [false]) (terminal w)).
Proof.
  intros Hg En Hf Hl.
  set (th := length (threads w)).
  set (s1 := ProgressIndicator.Indicator (ProgressIndicator._animator self)
               (ProgressIndicator._delay self) (Some th) true).
  set (w1 := World (stdout w) (heap w) (threads w ++ [true]) (terminal w)).
  assert (ProgressIndicator.__enter__ self w = (Ok s1, w1)) as Henter.
  { unfold ProgressIndicator.__enter__, ProgressIndicator.start.
    by rewrite En. }
  assert (threads w1 !! th = Some true) as A.
  { unfold w1, th. simpl. by rewrite lookup_app_r, Nat.sub_diag. }
  destruct (turns_render n s1 w1 th frames) as (g & Ht & _);
    [done | done | done | | done |].
  { rewrite <- Hf. by apply take_frames_same_heap. }
  exists g. rewrite bind_at, Henter, bind_at, Ht.
  unfold ProgressIndicator.__exit__.
  rewrite (stop_running _ _ th) by done.
  unfold stopped, printed, w1, th. simpl. f_equal. f_equal.
  - by rewrite <- List.app_assoc.
  - rewrite insert_app_r_alt by lia. by rewrite Nat.sub_diag.
Qed.

Lemma with_block_renders_then_clears_witness :
  exists g,
    (do s <- ProgressIndicator.__enter__
               (ProgressIndicator.Indicator (ProgressIndicator.dots "" 3 "." " ")
                                            1 None false);
     do s <- turns 2 (length (threads (World [] [] [] (Some 80)))) s;
     ProgressIndicator.__exit__ s) (World [] [] [] (Some 80))
    = (Ok (ProgressIndicator.Indicator g 1 (Some 0%nat) false),
       World ([] ++ rendered [".  "; ".. "] ++ [Write ESC_K]) []
             ([] ++ [false]) (Some 80)).
Proof.
  apply (with_block_renders_then_clears
           (ProgressIndicator.Indicator (ProgressIndicator.dots "" 3 "." " ")
                                        1 None false)
           (World [] [] [] (Some 80)) 2 [".  "; ".. "]);
    [by intros st w1 w2 _ | reflexivity | reflexivity | reflexivity].
Defined.

(* ===================================================================== *)
(** ** The width of the percentage frames                                 *)
(* ===================================================================== *)

Section format_width.

Lemma round_half_even_bounds (q : Q) (N : Z) :
  (0 <= q)%Q -> (q <= inject_Z N)%Q ->
  0 <= Py.round_half_even q <= N.
Proof.
  intros H0 HN. unfold Py.round_half_even.
  pose proof (Qfloor_resp_le _ _ H0) as Hf0. change (Qfloor 0) with 0 in Hf0.
  pose proof (Qfloor_resp_le _ _ HN) as HfN. rewrite Qfloor_Z in HfN.
  pose proof (Qfloor_le q) as Hle.
  destruct (Qcompare (q - inject_Z (Qfloor q)) (1 # 2)) eqn:C.
  - destruct (Z.even (Qfloor q)); [lia|].
    apply Qeq_alt in C.
    destruct (Z.eq_dec (Qfloor q) N) as [E|]; [|lia].
    rewrite E in C. exfalso. lra.
  - lia.
  - apply Qgt_alt in C.
    destruct (Z.eq_dec (Qfloor q) N) as [E|]; [|lia].
    rewrite E in C. exfalso. lra.
Qed.

Lemma digits_width (n : Z) :
  0 <= n <= 100 -> (1 <= String.length (Py.digits n) <= 3)%nat.
Proof.
  intros Hn.
  assert (forallb (fun k => let l := String.length (Py.digits (Z.of_nat k)) in
                            (1 <=? l)%nat && (l <=? 3)%nat) (seq 0 101) = true)
    as Hall by (by vm_compute).
  rewrite forallb_forall in Hall.
  specialize (Hall (Z.to_nat n)). rewrite Z2Nat.id in Hall by lia.
  apply andb_true_iff in Hall as [H1 H3]; [|apply in_seq; lia].
  apply Nat.leb_le in H1, H3. lia.
Qed.

Lemma two_digits_width (n : Z) :
  0 <= n <= 99 -> String.length (Py.two_digits n) = 2%nat.
Proof.
  intros Hn.
  assert (forallb (fun k => (String.length (Py.two_digits (Z.of_nat k)) =? 2)%nat)
                  (seq 0 100) = true)
    as Hall by (by vm_compute).
  rewrite forallb_forall in Hall.
  specialize (Hall (Z.to_nat n)). rewrite Z2Nat.id in Hall by lia.
  apply Nat.eqb_eq, Hall, in_seq. lia.
Qed.

Lemma pad_left_width (width : nat) (s : string) :
  (String.length s <= width)%nat ->
  String.length (Py.pad_left width s) = width.
Proof.
  intros H. unfold Py.pad_left. rewrite str_length_app, length_repeat_str.
  simpl. lia.
Qed.

(** A share in [0, 1] is shown in exactly six characters. *)
Lemma fixed_width (y : Q) :
  (0 <= y <= 100)%Q -> Py.len (Py.format_6_2f y) = 6.
Proof.
  intros [H0 H1]. unfold Py.len, Py.format_6_2f.
  rewrite pad_left_width; [done|]. unfold Py.fixed2.
  assert (Qle_bool 0 y = true) as -> by (by apply Qle_bool_iff).
  set (c := Py.round_half_even (Qabs y * 100)).
  assert (0 <= c <= 10000) as Hc.
  { apply round_half_even_bounds.
    - pose proof (Qabs_nonneg y). lra.
    - assert (Qabs y <= 100)%Q
        by (apply Qabs_Qle_condition; split; lra).
      change (inject_Z 10000) with 10000%Q. lra. }
  assert (0 <= c / 100 <= 100) as Hi
    by (split; [apply Z.div_pos; lia | apply Z.div_le_upper_bound; lia]).
  pose proof (Z.mod_pos_bound c 100 ltac:(lia)) as Hm.
  pose proof (digits_width _ Hi) as Hd.
  pose proof (two_digits_width (c mod 100) ltac:(lia)) as Ht.
  rewrite str_app_nil, !str_length_app, Ht. simpl. lia.
Qed.

Lemma format_width (x : Q) :
  (0 <= x <= 1)%Q -> Py.len (Py.format_6_2f (Py.mul_int_float 100 x)) = 6.
Proof.
  intros Hx. apply fixed_width.
  by destruct (mul_int_float_bounds 100 x ltac:(lia) Hx) as [H _].
Qed.

End format_width.

(** X6: a [Percentage] without bar on a terminal of [width] columns.
    For every progress value in [0, 1] the line [show()] writes (the space
    and the frame) has the same width, so each frame covers the one before
    it: 8 characters when the message was dropped by the width guard
    ([width < len(message) + 8], the message is then printed once), and
    [len(message) + 8] characters otherwise, which fits the terminal. *)
Theorem percentage_plain_lines_fit
        (delay : Q) (message : string) (percentage : Q)
        (use_delayed_output keep_output : bool) (width : Z) (w w' : world)
        (self : ProgressIndicator.Percentage.t) (x : Q) :
  terminal w = Some width ->
  ProgressIndicator.Percentage.__init__ delay message percentage false
    use_delayed_output keep_output w = (Ok self, w') ->
  (0 <= x <= 1)%Q ->
  let line := " " +:+ perc_frame (ProgressIndicator.Percentage._message self) x in
  if width <? Py.len message + 8
  then stdout w' = stdout w ++ [Write message; Write NL] /\ Py.len line = 8
  else stdout w' = stdout w /\
       Py.len line = Py.len message + 8 /\ Py.len line <= width.
Proof.
  intros Ht. rewrite Percentage_init_eq, Ht. cbv zeta.
  destruct (Py.gt0 delay); [|done]. intros Hok Hx. injection Hok as <- <-.
  cbn [ProgressIndicator.Percentage._message].
  unfold perc_frame, message_text. cbn [lookup list_lookup default id].
  rewrite !len_app, (format_width x Hx).
  change (Py.len " ") with 1. change (Py.len "%") with 1.
  destruct (Z.ltb_spec width (Py.len message + 8)) as [Hn|Hn];
    unfold guarded, guard_output; cbv iota.
  - split; [done|]. change (Py.len "") with 0. lia.
  - split; [done|]. lia.
Qed.

Lemma percentage_plain_lines_fit_witness :
  stdout (World [] [[0%Q]] [] (Some 80)) = stdout (World [] [] [] (Some 80)) /\
  Py.len (" " +:+ perc_frame (MsgList ["load "]) (1 # 3)) = Py.len "load " + 8 /\
  Py.len (" " +:+ perc_frame (MsgList ["load "]) (1 # 3)) <= 80.
Proof.
  apply (percentage_plain_lines_fit 1 "load " 0 true true 80
           (World [] [] [] (Some 80)) (World [] [[0%Q]] [] (Some 80))
           (ProgressIndicator.Percentage.Make true true 0%nat (MsgList ["load "])
              (ProgressIndicator.Indicator
                 (ProgressIndicator.Percentage._perc 0%nat (MsgList ["load "]))
                 1 None false))
           (1 # 3)); [reflexivity | reflexivity | split; discriminate].
Defined.

(** X7: a [Percentage] with bar on a terminal of at least 11 columns (and
    at most [2^53], so that the width is a [float]).  For every progress
    value in [0, 1] the line [show()] writes (the space, the message the
    width guard left, the bar and the percentage) is exactly as wide as
    the terminal: the bar takes up all the room that is left. *)
Theorem percentage_bar_fills_line
        (delay : Q) (message : string) (percentage : Q)
        (use_delayed_output keep_output : bool) (width : Z) (w w' : world)
        (self : ProgressIndicator.Percentage.t) (x : Q) :
  terminal w = Some width ->
  ProgressIndicator.Percentage.__init__ delay message percentage true
    use_delayed_output keep_output w = (Ok self, w') ->
  11 <= width <= 2 ^ 53 ->
  (0 <= x <= 1)%Q ->
  Py.len (" " +:+ perc_frame (ProgressIndicator.Percentage._message self) x)
  = width.
Proof.
  intros Ht Hok Hw Hx.
  rewrite (Percentage_bar_message _ _ _ _ _ _ _ _ _ Ht Hok).
  unfold perc_frame, message_text, bar_text.
  set (m := guarded (width <? Py.len message + 12) message).
  cbn [_bar.__init__ _bar.w _bar.m].
  set (bw := width - Py.len m - 11).
  assert (0 <= bw <= 2 ^ 53) as Hbw.
  { unfold bw, m, guarded.
    destruct (Z.ltb_spec width (Py.len message + 12)).
    - change (Py.len "") with 0. lia.
    - unfold Py.len in *. lia. }
  destruct (bar_counts bw x Hx Hbw) as (_ & Hf & _).
  rewrite !len_app, !len_str_mul, (format_width x Hx) by lia.
  change (Py.len " ") with 1. change (Py.len "%") with 1.
  change (Py.len "[") with 1. change (Py.len "#") with 1.
  change (Py.len "] ") with 2. unfold bw. lia.
Qed.

Lemma percentage_bar_fills_line_witness :
  Py.len (" " +:+ perc_frame
                    (MsgBar (_bar.__init__ 0%nat "download 1 " 80)) (5 # 13))
  = 80.
Proof.
  apply (percentage_bar_fills_line (2 # 5) "download 1 " 0 true true 80
           (World [] [] [] (Some 80)) (World [] [[0%Q]] [] (Some 80))
           (ProgressIndicator.Percentage.Make true true 0%nat
              (MsgBar (_bar.__init__ 0%nat "download 1 " 80))
              (ProgressIndicator.Indicator
                 (ProgressIndicator.Percentage._perc 0%nat
                    (MsgBar (_bar.__init__ 0%nat "download 1 " 80)))
                 (2 # 5) None false))
           (5 # 13));
    [reflexivity | reflexivity | lia | split; discriminate].
Defined.

(** X8: the bar grows with the progress.  On a bar with room for [w]
    cells, [0 <= w <= 2^53], the number of ["#"] the code computes is
    between 0 and [w], does not decrease when the progress increases
    within [0, 1], is 0 at progress 0 and [w] at progress 1; these ["#"]
    and the spaces after them always make up [w] cells. *)
Theorem bar_grows_with_progress (b : _bar.t) (x y : Q) (wd : world) :
  0 <= _bar.w b <= 2 ^ 53 ->
  (0 <= x)%Q -> (x <= y)%Q -> (y <= 1)%Q ->
  heap wd !! _bar.p b = Some [x] ->
  let filled := fun v => Py.int (Py.mul_int_float (_bar.w b) v) in
  _bar.__getitem__ b wd
  = (Ok (_bar.m b +:+ "[" +:+ Py.str_mul "#" (filled x)
                  +:+ Py.str_mul " " (_bar.w b - filled x) +:+ "] "), wd) /\
  0 <= filled x /\ filled x <= filled y /\ filled y <= _bar.w b /\
  Py.len (Py.str_mul "#" (filled x) +:+ Py.str_mul " " (_bar.w b - filled x))
  = _bar.w b /\
  ((x == 0)%Q -> filled x = 0) /\
  ((y == 1)%Q -> filled y = _bar.w b).
Proof.
  intros Hw H0 Hxy H1 Hcell filled.
  assert (0 <= x <= 1)%Q as Hx by lra.
  assert (0 <= y <= 1)%Q as Hy by lra.
  destruct (bar_counts (_bar.w b) x Hx Hw) as (Efx & Hfx & _).
  destruct (bar_counts (_bar.w b) y Hy Hw) as (Efy & Hfy & _).
  fold (filled x) in Efx, Hfx. fold (filled y) in Efy, Hfy.
  assert (filled x <= filled y) as Hmono.
  { rewrite Efx, Efy. apply Qfloor_resp_le.
    apply mul_int_float_mono; [lia|done]. }
  split; [|split; [lia|split; [done|split; [lia|split; [|split]]]]].
  - unfold _bar.__getitem__. by rewrite bind_at, (load_at _ _ _ Hcell).
  - rewrite len_app, !len_str_mul by lia. change (Py.len "#") with 1.
    change (Py.len " ") with 1. lia.
  - intros E. unfold filled.
    by rewrite (mul_int_float_proper _ x 0 E), mul_int_float_0.
  - intros E. unfold filled.
    rewrite (mul_int_float_proper _ y 1 E), int_floor.
    + by rewrite (mul_int_float_1 (_bar.w b)), Qfloor_Z by lia.
    + rewrite (mul_int_float_1 (_bar.w b)) by lia.
      change 0%Q with (inject_Z 0). rewrite <- Zle_Qle. lia.
Qed.

Lemma bar_grows_with_progress_witness :
  0 <= Py.int (Py.mul_int_float 14 (1 # 4)) /\
  Py.int (Py.mul_int_float 14 (1 # 4)) <= Py.int (Py.mul_int_float 14 (2 # 2)) /\
  Py.int (Py.mul_int_float 14 (2 # 2)) <= 14 /\
  ((2 # 2 == 1)%Q -> Py.int (Py.mul_int_float 14 (2 # 2)) = 14).
Proof.
  destruct (bar_grows_with_progress (_bar.Bar 0%nat "load " 14) (1 # 4) (2 # 2)
              (World [] [[1 # 4]] [] (Some 30)))
    as (_ & H0 & Hm & Hw & _ & _ & H1);
    [simpl; lia | discriminate | discriminate | discriminate | reflexivity |].
  by repeat split.
Defined.

(* ===================================================================== *)
(** ** Reporting progress                                                 *)
(* ===================================================================== *)

Section reporting.

Import ProgressIndicator.

Lemma set_progress_all_eq self vs : forall w,
  well_formed self w ->
  exists h,
    set_progress_all vs self w
    = (Ok self,
       World (stdout w ++ (if _enabled (Percentage._indicator self) then []
                           else rendered (perc_frame (Percentage._message self)
                                            <$> vs)))
             h (threads w) (terminal w)) /\
    well_formed self (World (stdout w) h (threads w) (terminal w)) /\
    (forall x, heap w !! Percentage._progress self = Some [x] ->
               h !! Percentage._progress self = Some [default x (last vs)]).
Proof.
  induction vs as [|v vs IH]; intros w Hwf.
  - exists (heap w). split; [|split].
    + simpl. unfold ret. destruct w; simpl.
      by destruct (_enabled _); rewrite app_nil_r.
    + by destruct w.
    + done.
  - pose proof (well_formed_stored self w v Hwf) as Hwf1.
    pose proof Hwf as ([x0 Hx0] & _).
    pose proof (stored_cell _ _ v w Hx0) as Hcell.
    set (evs := if _enabled (Percentage._indicator self) then []
                else [Write (" " +:+ perc_frame (Percentage._message self) v
                                 +:+ CR); Flush]).
    destruct (IH (printed (stored w (Percentage._progress self) v) evs))
      as (h & Heq & Hwf2 & Hlast); [by apply well_formed_printed|].
    exists h. split; [|split].
    + cbn [set_progress_all]. rewrite bind_at, set_progress_eq by done.
      fold evs. rewrite Heq. f_equal. unfold printed, stored, evs. simpl.
      destruct (_enabled (Percentage._indicator self)).
      * by rewrite !app_nil_r.
      * by rewrite <- List.app_assoc.
    + exact Hwf2.
    + intros x Hx. specialize (Hlast v Hcell).
      rewrite Hlast, (last_cons v vs). by destruct (last vs).
Qed.

End reporting.

(** X9: reporting without background thread.  On a [Percentage] built with
    [use_delayed_output] false, a run of [set_progress] calls writes one
    frame per call, in the order of the calls and each showing the value of
    its call, and nothing else; afterwards the shared list holds the last
    value (or is unchanged when there was no call). *)
Theorem set_progress_all_renders_each
        (self : ProgressIndicator.Percentage.t) (w : world) (vs : list Q) (x : Q) :
  PercentageUse.reachable self w ->
  ProgressIndicator.Percentage._use_thread self = false ->
  heap w !! ProgressIndicator.Percentage._progress self = Some [x] ->
  exists h,
    set_progress_all vs self w
    = (Ok self,
       World (stdout w
              ++ rendered (perc_frame (ProgressIndicator.Percentage._message self)
                             <$> vs))
             h (threads w) (terminal w)) /\
    h !! ProgressIndicator.Percentage._progress self
    = Some [default x (last vs)].
Proof.
  intros Hreach Ut Hx.
  pose proof (reachable_well_formed _ _ Hreach) as Hwf.
  pose proof Hwf as (_ & _ & _ & _ & Hoff & _).
  destruct (set_progress_all_eq self vs w Hwf) as (h & Heq & _ & Hlast).
  exists h. rewrite Heq, (Hoff Ut). split; [done | by apply Hlast].
Qed.

Lemma set_progress_all_renders_each_witness :
  let p := ProgressIndicator.Percentage.Make false false 0%nat (MsgList [""])
             (ProgressIndicator.Indicator
                (ProgressIndicator.Percentage._perc 0%nat (MsgList [""]))
                1 None false) in
  exists h,
    set_progress_all [1 # 4; 1 # 2] p (World [] [[0%Q]] [] (Some 80))
    = (Ok p,
       World ([] ++ rendered (perc_frame (MsgList [""]) <$> [1 # 4; 1 # 2]))
             h [] (Some 80)) /\
    h !! 0%nat = Some [default 0%Q (last [1 # 4; 1 # 2])].
Proof.
  intros p.
  assert (PercentageUse.reachable p (World [] [[0%Q]] [] (Some 80))) as Hreach.
  { by apply (PercentageUse.reach_new 1 "" 0 false false false
                                      (World [] [] [] (Some 80))). }
  exact (set_progress_all_renders_each p _ [1 # 4; 1 # 2] 0 Hreach
           eq_refl eq_refl).
Defined.

(** X10: reporting with background thread.  On an idle [Percentage] built
    with [use_delayed_output] true, [start()], a run of [set_progress]
    calls and [stop()], with no turn of the background thread in between,
    write exactly one frame, and it shows the last value reported (the
    value held before when nothing was reported), followed by the newline
    (with [keep_output]) and the erase-line sequence; the calls of
    [set_progress] write nothing, and no thread is alive at the end. *)
Theorem threaded_stop_shows_last_progress
        (self : ProgressIndicator.Percentage.t) (w : world) (vs : list Q) (x : Q) :
  PercentageUse.reachable self w ->
  ProgressIndicator.Percentage._use_thread self = true ->
  ProgressIndicator._enabled (ProgressIndicator.Percentage._indicator self)
  = false ->
  heap w !! ProgressIndicator.Percentage._progress self = Some [x] ->
  let w' := ((do s <- ProgressIndicator.Percentage.start self;
              do s <- set_progress_all vs s;
              ProgressIndicator.Percentage.stop s) w).2 in
  stdout w'
  = stdout w
    ++ [Write (" " +:+ perc_frame (ProgressIndicator.Percentage._message self)
                         (default x (last vs)) +:+ CR); Flush]
    ++ (if ProgressIndicator.Percentage._keep_output self then [Write NL] else [])
    ++ [Write ESC_K] /\
  alive w' = 0%nat.
Proof.
  intros Hreach Ut En Hx w'.
  pose proof (reachable_well_formed _ _ Hreach) as Hwf.
  set (th := length (threads w)).
  set (s1 := ProgressIndicator.Percentage.with_indicator self
               (ProgressIndicator.Indicator
                  (ProgressIndicator._animator
                     (ProgressIndicator.Percentage._indicator self))
                  (ProgressIndicator._delay
                     (ProgressIndicator.Percentage._indicator self))
                  (Some th) true)).
  set (w1 := World (stdout w) (heap w) (threads w ++ [true]) (terminal w)).
  assert (ProgressIndicator.Percentage.start self w = (Ok s1, w1)) as Hstart.
  { unfold ProgressIndicator.Percentage.start. rewrite Ut, bind_at.
    unfold ProgressIndicator.start. by rewrite En. }
  assert (well_formed s1 w1) as Hwf1.
  { pose proof (well_formed_start _ _ Hwf) as H. by rewrite Hstart in H. }
  destruct (set_progress_all_eq s1 vs w1 Hwf1) as (h & Heq & Hwf2 & Hlast).
  specialize (Hlast x Hx).
  assert (threads w1 !! th = Some true) as A
    by (unfold w1, th; simpl; by rewrite lookup_app_r, Nat.sub_diag).
  pose proof (stop_threaded_running s1
                (World (stdout w1) h (threads w1) (terminal w1))
                (default x (last vs)) th Hwf2 Hlast Ut eq_refl eq_refl A)
    as Hstop.
  assert (w' = (ProgressIndicator.Percentage.stop s1
                  (World (stdout w1) h (threads w1) (terminal w1))).2) as ->.
  { unfold w'. rewrite bind_at, Hstart, bind_at, Heq. simpl.
    by rewrite app_nil_r. }
  rewrite Hstop. split; [done|].
  pose proof (well_formed_stop _ _ Hwf2) as Hwf3. rewrite Hstop in Hwf3.
  by apply (running_iff_alive _ _ Hwf3).
Qed.

Lemma threaded_stop_shows_last_progress_witness :
  let p := ProgressIndicator.Percentage.Make true true 0%nat (MsgList [""])
             (ProgressIndicator.Indicator
                (ProgressIndicator.Percentage._perc 0%nat (MsgList [""]))
                1 None false) in
  let w' := ((do s <- ProgressIndicator.Percentage.start p;
              do s <- set_progress_all [1 # 4; 1 # 2] s;
              ProgressIndicator.Percentage.stop s)
               (World [] [[0%Q]] [] (Some 80))).2 in
  stdout w'
  = [] ++ [Write (" " +:+ perc_frame (MsgList [""])
                        (default 0%Q (last [1 # 4; 1 # 2])) +:+ CR); Flush]
       ++ [Write NL] ++ [Write ESC_K] /\
  alive w' = 0%nat.
Proof.
  intros p.
  assert (PercentageUse.reachable p (World [] [[0%Q]] [] (Some 80))) as Hreach.
  { by apply (PercentageUse.reach_new 1 "" 0 false true true
                                      (World [] [] [] (Some 80))). }
  exact (threaded_stop_shows_last_progress p _ [1 # 4; 1 # 2] 0 Hreach
           eq_refl eq_refl eq_refl).
Defined.

(* ===================================================================== *)
(** ** What clean_data leaves alone                                       *)
(* ===================================================================== *)

Section keeps.

Import cleanData.

Context (R : disk -> disk -> Prop) (out_path : string).
Hypothesis R_dirs : forall d d', dirs d' = dirs d -> R d d'.
Hypothesis R_trans : forall d1 d2 d3, R d1 d2 -> R d2 d3 -> R d1 d3.
Hypothesis R_remove :
  forall directory item,
    known out_path directory -> keeps R (os_remove directory item).
Hypothesis R_rmdir :
  forall directory, known out_path directory -> keeps R (os_rmdir directory).

Lemma keeps_quiet {A} (c : FS A) :
  (forall d, dirs (c d).2 = dirs d) -> keeps R c.
Proof. intros H d. by apply R_dirs. Qed.

Lemma keeps_bind {A B} (c : FS A) (k : A -> FS B) :
  keeps R c -> (forall a, keeps R (k a)) -> keeps R (bind c k).
Proof.
  intros Hc Hk d. rewrite bind_at. specialize (Hc d).
  destruct (c d) as [[a|e|] d1]; simpl in *; [|done..].
  by apply (R_trans _ d1), Hk.
Qed.

Lemma keeps_try_except {A} (c : FS A) handled (h : exn -> FS A) :
  keeps R c -> (forall e, keeps R (h e)) -> keeps R (try_except c handled h).
Proof.
  intros Hc Hh d. unfold try_except. specialize (Hc d).
  destruct (c d) as [[a|e|] d1]; simpl in *; [done| |done].
  destruct (handled e); simpl; [|done]. by apply (R_trans _ d1), Hh.
Qed.

Lemma keeps_for_each {A} (l : list A) (body : A -> FS unit) :
  (forall x, x ∈ l -> keeps R (body x)) -> keeps R (for_each l body).
Proof.
  induction l as [|x l IH]; intros Hb; simpl.
  - by apply keeps_quiet.
  - apply keeps_bind; [apply Hb; by left|]. intros _. apply IH.
    intros y Hy. apply Hb. by right.
Qed.

Lemma keeps_listdir directory : keeps R (try_listdir directory).
Proof.
  apply keeps_quiet. intros d. unfold try_listdir, try_except, os_listdir.
  rewrite bind_at. by destruct (dirs d !! directory).
Qed.

Lemma keeps_try_rmdir directory :
  known out_path directory -> keeps R (try_rmdir directory).
Proof.
  intros Hk. apply keeps_try_except; [|intros; by apply keeps_quiet].
  apply keeps_bind; [by apply R_rmdir | intros; by apply keeps_quiet].
Qed.

Lemma known_root : known out_path out_path.
Proof. by left. Qed.

Lemma known_sub cdir :
  cdir ∈ directories -> known out_path (Py.path_join out_path cdir).
Proof. intros H. right. by exists cdir. Qed.

Lemma known_Germany : known out_path (Py.path_join out_path "Germany/").
Proof. apply known_sub. unfold directories. by left. Qed.

Lemma keeps_clean_data (all_data rki john_hopkins population hdf5 : bool) :
  keeps R (clean_data all_data rki john_hopkins population hdf5 out_path).
Proof.
  pose proof known_root. pose proof known_Germany.
  unfold clean_data. cbv beta zeta.
  repeat first
    [ apply keeps_listdir
    | apply keeps_try_rmdir; first [done | by apply known_sub]
    | apply R_remove; first [done | by apply known_sub]
    | apply R_rmdir; first [done | by apply known_sub]
    | apply keeps_for_each; intros ? ?
    | apply keeps_bind; [|intros ?]
    | apply keeps_try_except; [|intros ?]
    | match goal with
      | |- keeps _ (if ?b then _ else _) => destruct b
      | |- keeps _ (match ?x with _ => _ end) => destruct x
      end
    | by apply keeps_quiet ].
Qed.

End keeps.

Section kept_relations.

Import cleanData.

Lemma shrunk_clean_data (all_data rki john_hopkins population hdf5 : bool)
      out_path :
  keeps shrunk (clean_data all_data rki john_hopkins population hdf5 out_path).
Proof.
  apply keeps_clean_data.
  - intros d d' Hd directory files' H. rewrite Hd in H. by exists files'.
  - intros d1 d2 d3 H12 H23 directory files3 H3.
    destruct (H23 _ _ H3) as (files2 & H2 & Hsub23).
    destruct (H12 _ _ H2) as (files1 & H1 & Hsub12).
    exists files1. split; [done|]. by etrans.
  - intros directory item _ d. unfold os_remove.
    destruct (dirs d !! directory) as [files|] eqn:E; simpl;
      [|by intros ? ? ->; eexists].
    destruct (bool_decide (item ∈ files)); simpl;
      [|by intros ? ? ->; eexists].
    destruct (locked d !! Py.path_join directory item); simpl;
      [by intros ? ? ->; eexists|].
    intros dir files' H. simpl in H.
    destruct (decide (directory = dir)) as [<-|Hne].
    + rewrite lookup_insert_eq in H. injection H as <-.
      exists files. split; [done|].
      intros f Hf. by apply list_elem_of_filter in Hf as [_ ?].
    + rewrite lookup_insert_ne in H by done. by exists files'.
  - intros directory _ d. unfold os_rmdir.
    destruct (dirs d !! directory) as [[|f files]|] eqn:E; simpl;
      [|by intros ? ? ->; eexists..].
    intros dir files' H. simpl in H.
    destruct (decide (directory = dir)) as [<-|Hne].
    + by rewrite lookup_delete_eq in H.
    + rewrite lookup_delete_ne in H by done. by exists files'.
Qed.

Lemma untouched_clean_data (all_data rki john_hopkins population hdf5 : bool)
      out_path :
  keeps (untouched_elsewhere out_path)
        (clean_data all_data rki john_hopkins population hdf5 out_path).
Proof.
  apply keeps_clean_data.
  - intros d d' Hd directory _. by rewrite Hd.
  - intros d1 d2 d3 H12 H23 directory Hk. by rewrite H23, H12.
  - intros directory item Hk d dir Hdir. unfold os_remove.
    destruct (dirs d !! directory) as [files|] eqn:E; simpl; [|done].
    destruct (bool_decide (item ∈ files)); simpl; [|done].
    destruct (locked d !! Py.path_join directory item); simpl; [done|].
    apply lookup_insert_ne. by intros ->.
  - intros directory Hk d dir Hdir. unfold os_rmdir.
    destruct (dirs d !! directory) as [[|f files]|] eqn:E; simpl; [|done..].
    apply lookup_delete_ne. by intros ->.
Qed.

End kept_relations.

(** X11: [clean_data] only ever removes.  Whatever the flags, afterwards
    every directory that exists did exist before, and holds no file that it
    did not hold before. *)
Theorem clean_data_only_removes
        (all_data rki john_hopkins population hdf5 : bool) (out_path : string)
        (d : cleanData.disk) (directory : string) (files' : list string) :
  cleanData.dirs
    (cleanData.clean_data all_data rki john_hopkins population hdf5 out_path d).2
    !! directory = Some files' ->
  exists files,
    cleanData.dirs d !! directory = Some files /\ files' ⊆ files.
Proof.
  apply (shrunk_clean_data all_data rki john_hopkins population hdf5 out_path d).
Qed.

Lemma clean_data_only_removes_witness :
  exists files,
    cleanData.dirs
      (cleanData.Disk {[ "out/Germany/" := ["cases_rki.json"; "notes.txt"] ]}
                      [] [] [] ∅)
      !! "out/Germany/" = Some files /\
    ["notes.txt"] ⊆ files.
Proof.
  apply (clean_data_only_removes false true false false false "out"
           (cleanData.Disk {[ "out/Germany/" := ["cases_rki.json"; "notes.txt"] ]}
                           [] [] [] ∅)
           "out/Germany/" ["notes.txt"]).
  by vm_compute.
Defined.

(** X12: [clean_data] stays below [out_path].  Whatever the flags, a
    directory that is neither [out_path] itself nor one of the seven
    country directories joined to it keeps its listing. *)
Theorem clean_data_stays_below_out_path
        (all_data rki john_hopkins population hdf5 : bool) (out_path : string)
        (d : cleanData.disk) (directory : string) :
  directory <> out_path ->
  (forall cdir, cdir ∈ cleanData.directories ->
                directory <> Py.path_join out_path cdir) ->
  cleanData.dirs
    (cleanData.clean_data all_data rki john_hopkins population hdf5 out_path d).2
    !! directory
  = cleanData.dirs d !! directory.
Proof.
  intros Hroot Hsub.
  apply (untouched_clean_data all_data rki john_hopkins population hdf5
                              out_path d).
  intros [->|(cdir & Hin & ->)]; [done | by apply (Hsub cdir)].
Qed.

Lemma clean_data_stays_below_out_path_witness :
  cleanData.dirs
    (cleanData.clean_data true false false false false "out"
       (cleanData.Disk {[ "home/" := ["thesis.json"] ]} [] [] [] ∅)).2
    !! "home/"
  = cleanData.dirs (cleanData.Disk {[ "home/" := ["thesis.json"] ]} [] [] [] ∅)
    !! "home/".
Proof.
  apply (clean_data_stays_below_out_path true false false false false "out").
  - discriminate.
  - intros cdir Hin. unfold cleanData.directories in Hin.
    repeat (apply elem_of_cons in Hin as [->|Hin]; [discriminate|]).
    by apply elem_of_nil in Hin.
Defined.

(* ===================================================================== *)
(** ** The deletion loops                                                 *)
(* ===================================================================== *)

Section sweep.

Import cleanData.

Lemma disk_eta (d : disk) :
  Disk (dirs d) (removed d) (removed_dirs d) (printed d) (locked d) = d.
Proof. by destruct d. Qed.

Lemma filter_other (x : string) (l : list string) :
  x ∉ l -> filter (fun f => f ≠ x) l = l.
Proof.
  induction l as [|y l IH]; intros Hx; [done|].
  apply not_elem_of_cons in Hx as [Hne Hx].
  rewrite filter_cons_True by done. by rewrite IH.
Qed.

Lemma remove_listed directory (keep l : list string) (x : string) d :
  dirs d !! directory = Some (keep ++ x :: l) -> NoDup (keep ++ x :: l) ->
  locked d !! Py.path_join directory x = None ->
  os_remove directory x d
  = (Ok tt, Disk (<[directory := keep ++ l]> (dirs d))
                 (removed d ++ [Py.path_join directory x])
                 (removed_dirs d) (printed d) (locked d)).
Proof.
  intros Hd Hnd Hfree. unfold os_remove. rewrite Hd, Hfree.
  rewrite bool_decide_eq_true_2 by (apply elem_of_app; right; by left).
  apply NoDup_app in Hnd as (Hk & Hkl & Hxl).
  apply NoDup_cons in Hxl as [Hx Hl].
  rewrite filter_app, filter_cons_False by (by intros H; apply H).
  rewrite !filter_other; [done|done|].
  intros Hin. apply (Hkl x Hin). by left.
Qed.

Lemma remove_locked directory (files : list string) (x : string) why d :
  dirs d !! directory = Some files -> x ∈ files ->
  locked d !! Py.path_join directory x = Some why ->
  os_remove directory x d = (Raise (refusal_exn why), d).
Proof.
  intros Hd Hx Hlock. unfold os_remove. rewrite Hd, Hlock.
  by rewrite bool_decide_eq_true_2.
Qed.

(** One deletion loop over the part [l] of a listing, between the entries
    [keep] passed over already and the entries [rest] not reached, when
    every entry of [l] that is to go can be unlinked. *)
Lemma sweep_ok directory pred (l : list string) : forall keep rest d,
  dirs d !! directory = Some (keep ++ l ++ rest) ->
  NoDup (keep ++ l ++ rest) ->
  (forall f, f ∈ l -> pred f = true ->
             locked d !! Py.path_join directory f = None) ->
  for_each l (delete_if directory pred) d
  = (Ok tt,
     Disk (<[directory := keep ++ filter (fun f => pred f = false) l ++ rest]>
             (dirs d))
          (removed d
           ++ (Py.path_join directory <$> filter (fun f => pred f = true) l))
          (removed_dirs d)
          (printed d
           ++ ((fun f => "Deleting file " +:+ " " +:+ Py.path_join directory f)
                 <$> filter (fun f => pred f = true) l))
          (locked d)).
Proof.
  induction l as [|x l IH]; intros keep rest d Hd Hnd Hfree.
  - simpl. unfold ret. rewrite !app_nil_r.
    by rewrite insert_id, disk_eta.
  - cbn [for_each]. rewrite bind_at. unfold delete_if at 1.
    destruct (pred x) eqn:Px.
    + rewrite bind_at. unfold print2 at 1.
      rewrite (remove_listed directory keep (l ++ rest) x);
        [|done|done|by apply Hfree; [left|]].
      cbn [dirs removed removed_dirs printed locked].
      rewrite (IH keep rest);
        cbn [dirs removed removed_dirs printed locked].
      * rewrite insert_insert_eq.
        rewrite (filter_cons_True (fun f => pred f = true)) by done.
        rewrite (filter_cons_False (fun f => pred f = false))
          by (by rewrite Px).
        by rewrite !fmap_cons, <- !List.app_assoc.
      * by rewrite lookup_insert_eq.
      * apply NoDup_app in Hnd as (Hk & Hkl & Hxl).
        apply NoDup_cons in Hxl as [Hx Hl].
        apply NoDup_app. split; [done|]. split; [|done].
        intros y Hy Hyl. apply (Hkl y Hy). by right.
      * intros f Hf. apply Hfree. by right.
    + unfold ret at 1.
      rewrite (IH (keep ++ [x]) rest); rewrite <- ?List.app_assoc;
        [|done|done|intros f Hf; apply Hfree; by right].
      rewrite (filter_cons_False (fun f => pred f = true))
        by (by rewrite Px).
      by rewrite (filter_cons_True (fun f => pred f = false)) by done.
Qed.




Lemma for_each_ext {A} (l : list A) (body body' : A -> FS unit) d :
  (forall x d, body x d = body' x d) -> for_each l body d = for_each l body' d.
Proof.
  intros H. revert d. induction l as [|x l IH]; intros d; [done|].
  cbn [for_each]. rewrite !bind_at, H.
  destruct (body' x d) as [[[]|e|] d1]; [apply IH|done..].
Qed.

Lemma for_each_app {A} (l1 l2 : list A) (body : A -> FS unit) d :
  for_each (l1 ++ l2) body d = (do_ for_each l1 body; for_each l2 body) d.
Proof.
  revert d. induction l1 as [|x l1 IH]; intros d; [done|].
  cbn [app for_each]. rewrite !bind_at.
  destruct (body x d) as [[[]|e|] d1]; [|done..].
  by rewrite IH, bind_at.
Qed.



End sweep.

Section listing.

Import cleanData.

Lemma try_listdir_eq directory d :
  try_listdir directory d = (Ok (dirs d !! directory), d).
Proof.
  unfold try_listdir, try_except, os_listdir. rewrite bind_at.
  by destruct (dirs d !! directory).
Qed.

End listing.



(** X15: a missing [Germany/] directory is no error for the runs for the
    RKI and the population data.  [os.listdir] raises
    [FileNotFoundError], the list of files stays empty, and [os.rmdir]
    raises [FileNotFoundError] again, which the handler for [OSError]
    catches: the run returns and the file system and the output are as
    before. *)
Theorem clean_data_missing_Germany
        (rki population hdf5 : bool) (out_path : string)
        (d : cleanData.disk) :
  rki || population = true ->
  cleanData.dirs d !! Py.path_join out_path "Germany/" = None ->
  cleanData.clean_data false rki false population hdf5 out_path d
  = (Ok tt, d).
Proof.
  intros Hflag Hd.
  assert (forall body,
    (do listing <- cleanData.try_listdir (Py.path_join out_path "Germany/");
     let files := default [] listing in
     do_ for_each files body;
     try_except
       (do_ cleanData.os_rmdir (Py.path_join out_path "Germany/");
        cleanData.print2 "Deleting directory "
                         (Py.path_join out_path "Germany/"))
       is_OSError (fun _ => ret tt)) d = (Ok tt, d)) as Hrun.
  { intros body. rewrite bind_at, try_listdir_eq, Hd. cbv zeta.
    cbn [default id for_each]. rewrite bind_at. unfold ret at 1.
    unfold try_except. rewrite bind_at. unfold cleanData.os_rmdir.
    by rewrite Hd. }
  unfold cleanData.clean_data. cbv zeta.
  rewrite orb_false_r, Hflag.
  destruct rki, population; try discriminate;
    rewrite bind_at; rewrite ?Hrun; unfold ret at 1;
    rewrite bind_at; rewrite ?Hrun; done.
Qed.

Lemma clean_data_missing_Germany_witness :
  cleanData.clean_data false true false true false "out"
    (cleanData.Disk {[ "out/Spain/" := ["spain.json"] ]} [] [] [] ∅)
  = (Ok tt, cleanData.Disk {[ "out/Spain/" := ["spain.json"] ]} [] [] [] ∅).
Proof.
  apply (clean_data_missing_Germany true true false "out"); reflexivity.
Defined.

(** X17: an entry that cannot be unlinked stops the run for the RKI
    data.  When the listing of [Germany/] reaches a file [item] that is to
    go and that [os.remove] cannot unlink, the run has removed the files
    to go that are listed before [item], has announced them and [item],
    and raises the exception of [os.remove]; the files listed after
    [item] are untouched and the directory is not removed. *)
Theorem clean_data_rki_stops_at_locked_file
        (hdf5 : bool) (out_path : string) (d : cleanData.disk)
        (before after : list string) (item : string)
        (why : cleanData.refusal) :
  let directory := Py.path_join out_path "Germany/" in
  let ending := if hdf5 then "h5" else "json" in
  let doomed (item : string) :=
    Py.endswith item ending
    && (Py.contains "_rki" item || Py.contains "RKI" item) in
  let gone := filter (fun f => doomed f = true) before in
  let left := filter (fun f => doomed f = false) before in
  cleanData.dirs d !! directory = Some (before ++ item :: after) ->
  NoDup (before ++ item :: after) ->
  (forall f, f ∈ gone ->
             cleanData.locked d !! Py.path_join directory f = None) ->
  doomed item = true ->
  cleanData.locked d !! Py.path_join directory item = Some why ->
  cleanData.clean_data false true false false hdf5 out_path d
  = (Raise (cleanData.refusal_exn why),
     cleanData.Disk
       (<[directory := left ++ item :: after]> (cleanData.dirs d))
       (cleanData.removed d ++ (Py.path_join directory <$> gone))
       (cleanData.removed_dirs d)
       (cleanData.printed d
        ++ ((fun f => "Deleting file " +:+ " " +:+ Py.path_join directory f)
              <$> gone)
        ++ ["Deleting file " +:+ " " +:+ Py.path_join directory item])
       (cleanData.locked d)).
Proof.
  intros directory ending doomed gone left Hd Hnd Hfree Hitem Hlock.
  unfold cleanData.clean_data. cbv zeta. cbn [orb].
  fold ending. fold directory.
  rewrite bind_at, bind_at, try_listdir_eq, Hd. cbn [default id].
  rewrite bind_at.
  rewrite (for_each_ext _ _ (delete_if directory doomed)).
  2:{ intros x d0. unfold delete_if, doomed.
      by destruct (Py.endswith x ending). }
  rewrite for_each_app, bind_at.
  rewrite (sweep_ok directory doomed before [] (item :: after) d);
    [|done|done|intros f Hf Hdoom; apply Hfree; by apply list_elem_of_filter].
  cbn [app for_each]. fold gone. fold left.
  rewrite bind_at. unfold delete_if at 1. rewrite Hitem.
  rewrite bind_at. unfold cleanData.print2 at 1.
  rewrite (remove_locked directory (left ++ item :: after) item why);
    [|by cbn; rewrite lookup_insert_eq
     |apply elem_of_app; right; by left|done].
  cbn. by rewrite <- !List.app_assoc.
Qed.

Lemma clean_data_rki_stops_at_locked_file_witness :
  cleanData.clean_data false true false false false "out"
    (cleanData.Disk
       {[ "out/Germany/" := ["a_rki.json"; "old_rki.json"; "b_rki.json"] ]}
       [] [] [] {[ "out/Germany/old_rki.json" := cleanData.Directory ]})
  = (Raise IsADirectoryError,
     cleanData.Disk
       {[ "out/Germany/" := ["old_rki.json"; "b_rki.json"] ]}
       ["out/Germany/a_rki.json"] []
       ["Deleting file  out/Germany/a_rki.json";
        "Deleting file  out/Germany/old_rki.json"]
       {[ "out/Germany/old_rki.json" := cleanData.Directory ]}).
Proof.
  pose proof (clean_data_rki_stops_at_locked_file false "out"
    (cleanData.Disk
       {[ "out/Germany/" := ["a_rki.json"; "old_rki.json"; "b_rki.json"] ]}
       [] [] [] {[ "out/Germany/old_rki.json" := cleanData.Directory ]})
    ["a_rki.json"] ["b_rki.json"] "old_rki.json" cleanData.Directory) as H.
  cbv zeta in H. rewrite H.
  - vm_compute. reflexivity.
  - reflexivity.
  - apply (bool_decide_unpack _). by vm_compute.
  - intros f Hf. apply list_elem_of_filter in Hf as [_ Hf].
    apply list_elem_of_singleton in Hf as ->. by vm_compute.
  - reflexivity.
  - reflexivity.
Defined.

(* ===================================================================== *)
(** ** Running clean_data again                                           *)
(* ===================================================================== *)

Section settling.

Import cleanData.






Lemma quiet_dirs s d d' : dirs d' = dirs d -> quiet s d -> quiet s d'.
Proof. unfold quiet. by intros ->. Qed.









End settling.




